(* ===== verification/_CoqProject ===== *)
-Q . S2P
Prelude.v
JsString.v
Tags.v
Transport.v
Auth.v
Editor.v
View.v
App.v
Network.v
Server.v
Session.v
