(* ===== verification/Prelude.v ===== *)
(** * A verification development for the wizmine blog front end

    The repository is a React single-page client of a blogging service.
    Four files are under [src/]:
    - [src/src/App.js]: the route table and the start-up "who am I" dispatch;
    - [src/src/components/Header/index.jsx]: the header, which shows the
      write affordances when the session is authenticated and logs out;
    - [src/src/pages/AddPost/index.jsx]: the post editor ([AddPost]), used
      both to create a post ([/add-post]) and to edit one
      ([/posts/:id/edit]): the write gate, the load of an existing post, the
      image upload sub-workflow and the submit;
    - [src/src/pages/FullPost.jsx]: the read-only article view
      ([FullPost]): load by identifier and the derived display fields.
    The Redux auth slice, the axios instance and the presentation components
    are imported from files that are not part of the sources.

    ** How the program is modelled

    Every page is a state record (its [useState] cells) together with one
    Rocq function per handler, [useEffect] body and promise continuation.
    A handler takes the state and returns the new state and the list of
    effects it asks the outside world to perform ([effect] in
    [Transport.v]): an HTTP request tagged with the continuation that will
    receive its result, an [alert], or a navigation.  Nothing is executed
    asynchronously inside a handler: the asynchrony of the program is in
    [App.v], where requests wait in a pending list and complete one at a
    time, in any order, each completion running its continuation.

    JavaScript strings are lists of UTF-16 code units as [Z] (the code
    only compares code units, never computes with them, so no theorem
    needs their 16-bit range); the regular expression [\s] is the exact ECMAScript
    class (WhiteSpace and LineTerminator, Unicode included); [split] and
    [join] follow [String.prototype.split] and [Array.prototype.join].
    JavaScript values that can be [undefined] are [option]s, and the
    truthiness tests of the code ([if (id)], [{imageUrl && ...}],
    [data.imageUrl ? ... : ""], [!localStorage.getItem("token")]) are the
    function [truthy].

    ** Files, modules and what they model

    - [Prelude.v] (this file): [jstr], the literal notation [⟪"..."⟫] of
      [js_scope], [truthy] and [to_str] (template literals), the hint
      databases [blog] and [blog_rw], the tactic [forall_js].
    - [JsString.v], [Module Str]: [is_ws] ([\s]), [strip_ws]
      ([replace(/\s/g, "")]), [split] ([String.prototype.split] with a
      one-code-unit separator) and [join] ([Array.prototype.join]); their
      algebra: idempotence, [join_split], [split_join], [split_length]
      and the pieces' contents ([split_pieces]).
    - [Tags.v], [Module Tags]: [tags_of_input] (AddPost line 53) and
      [tags_to_input] (line 82).  Claims C1-C6: the round trips, their
      losses, the shape of the submitted list, blank input.
    - [Transport.v], [Module Post] (the server's Post record) and
      [Module Transport]: requests as the pages build them ([post_path] is
      [`/posts/${id}`], [host] the attachment host), [completion]s, the
      [effect]s a handler returns, and the transport contract [fits] of
      the spec's section 6.
    - [Auth.v], [Module Auth]: the session (the auth slice's [data] and
      the stored token), [gate_redirects] (AddPost line 107), [canWrite],
      [Header] and [onClickLogout].  Claims C7-C9.
    - [Editor.v], [Module AddPost]: the five [useState] cells as [draft],
      one definition per handler ([handleChangeFile], [onClickRemoveImage],
      [onSubmit], the inline [onChange]s in [handle]) and per
      continuation ([handleChangeFile_done], [onSubmit_done],
      [load_done]), the [useEffect] ([load_effect], [params_change]), the
      [render] with its gate, and the SimpleMDE [options] record (lines
      92-105).  Claims C10-C17: each handler on every branch, failures
      keep the draft, edit round trip, and the gate of [render] stated
      against the session itself (C15).
    - [View.v], [Module FullPost]: [view] (its two cells), [fetch_effect],
      [fetch_done], [render] with [display_image] and the comments written
      into the source; [reachable] states and the invariant [view_ok].
      Claims C18-C20.
    - [App.v], [Module App]: [route] (React Router's matching of the six
      routes: static segments compared without ASCII case, trailing
      slashes ignored), the [world] (session, location, mounted
      [instance], generation counter, pending [queue], alerts), [goto]
      (React's rule: same page component keeps its state, any other route
      remounts), [check_gate] ([<Navigate to="/" />]), [boot] (a full page
      load, with the "who am I" request of [App]), [complete] (the
      completion of any pending request, in any order; [setState] after
      unmount is dropped, [alert] and [navigate] still run) and [step].
      Claims C21-C30: routing of the paths the code builds, submit lands
      on the article, the gate invariant over all reachable worlds, and
      the stale-completion behaviours (stale article on re-entry; C25:
      an older fetch for another article completing after the newer one
      overwrites it, because [fetch_done] does not compare the reply's
      identifier with the route's; draft kept from edit to create, late
      load over user edits, completions after unmount, submit after
      leaving); C35: the static segments match in any ASCII case and any
      number of trailing slashes is ignored.
    - [Network.v], [Module Network]: the pending queue as a typed system
      ([typed] request per continuation, [expects] reply shapes,
      [queue_ok]) and its termination measure ([weight], [load]) with
      [drain], the delivery of completions in any order ([sched]) from
      any contract-keeping server with a state of its own ([srv]).
      Claims C31 (the queue is well typed in every reachable world, so
      every continuation receives only the reply shapes it expects: this
      is why [FullPost.fetch_done] and [AddPost.load_done] may ignore
      other shapes) and C32 (liveness: the queue empties).
    - [Server.v], [Module Server]: the server as an interface, [Class
      Backend] ([serve], [stored]) with [Class BackendLaws] (the contract
      of section 6: fetch returns the stored post, create stores the
      submitted fields under a fresh valid identifier, update stores them
      under the edited one), [deliver] (a request served and completed),
      and [Module Ref], a [gmap] reference server with its
      [backend_laws] instance.  Claim C33, proved in [Section EndToEnd]
      against the interface: submit, then the two replies, shows the
      stored post with exactly the submitted fields.
    - [Session.v], [Module Session]: the header inside the application
      ([header] of the world's session, [click] of its items as events).
      Claim C34: the write link is shown exactly to an authenticated
      session, and a click on it routes to the create form, whose gate
      is open, so the form and not the redirect is rendered.

    ** Bounds, fuel and assumptions

    The model's functions are structurally recursive (strings, lists of
    events), with two explicit bounds.  [Network.drain] has fuel [load q], the queue's weight with a
    submit counted twice: every accepted completion lowers [load] by at
    least one (a submit may add one fetch through its navigation, any
    other completion adds nothing), so C32 shows that much fuel empties
    the queue.  [Server.Ref.decimal] has fuel [n + 1] for the digits of
    [n].  Reachability is an inductive closure of [boot]
    and [step] over all events, so invariants hold for runs of any length
    and any interleaving of completions.
    Assumptions of the model, stated where they are used: the server's
    replies follow the contract [fits]; the auth slice, the server and the
    "who am I" thunk are modelled from the spec; route parameters are not
    percent-decoded (the theorems about paths assume identifiers without
    ['/']); [console.warn] is not modelled; the [Cancel] link of the editor
    is a full page load ([Reload]).

    ** Not modelled
    The styling and MUI markup, the editor library's behaviour behind the
    SimpleMDE options (autosave among it: the options are a record, not a
    running editor), percent-decoding of route parameters, and the pages
    and components imported from files that are not among the sources
    (Home, Login, Registration, Post, CommentsBlock, AddComment), which
    the route table reaches as opaque pages.  The server, the network and
    the auth slice are modelled from the spec, as interfaces or
    reference implementations, not as code.

    ** Plan for the next steps
    1. the spec's view workflow (section 4.3, with the discard rule) as an
       abstract machine, with the proof that the code does not refine it
       and that a version with the identifier check does;
    2. a create-then-edit-then-view run through a stateful [Backend];
    3. the login flow, and a setoid of drafts up to the loading flag.
*)

From stdpp Require Export base list.
From Stdlib Require Export ZArith Lia.
From Stdlib Require Import String Ascii.
Export String.StringSyntax.

Declare Scope js_scope.
Delimit Scope js_scope with js.

(** A JavaScript string: a sequence of UTF-16 code units. *)
Definition jstr := list Z.

(** A source literal (ASCII) as a JavaScript string. *)
Definition js (s : string) : jstr :=
  map (fun a => Z.of_nat (nat_of_ascii a)) (list_ascii_of_string s).

Notation "⟪ s ⟫" := (js s%string) (s at level 0, format "⟪ s ⟫") : js_scope.
Open Scope js_scope.

(** JavaScript truthiness of a value that is a string or [undefined]:
    [undefined] and [""] are falsy, every other string is truthy. *)
Definition truthy (o : option jstr) : bool :=
  match o with
  | Some (_ :: _) => true
  | _ => false
  end.

(** The string a template literal [`${x}`] produces for a string or
    [undefined] value. *)
Definition to_str (o : option jstr) : jstr :=
  match o with
  | Some s => s
  | None => ⟪"undefined"⟫
  end.

Create HintDb blog.
Create Rewrite HintDb blog_rw.

Lemma truthy_iff (o : option jstr) :
  truthy o = true <-> exists c s, o = Some (c :: s).
Proof.
  destruct o as [[|c s]|]; simpl; split; intros H; try discriminate;
    try (destruct H as (? & ? & ?); discriminate); eauto.
Qed.

Lemma truthy_to_str (o : option jstr) :
  truthy o = true -> Some (to_str o) = o.
Proof. intros H. apply truthy_iff in H as (? & ? & ->). reflexivity. Qed.

#[export] Hint Resolve truthy_to_str : blog.

Lemma not_In_Z (x : Z) (s : list Z) : existsb (Z.eqb x) s = false -> ~ In x s.
Proof.
  intros H Hin. assert (existsb (Z.eqb x) s = true) as H' by
    (apply existsb_exists; exists x; split; [exact Hin | apply Z.eqb_refl]).
  congruence.
Qed.

(** Proves [Forall] and [~ In] facts about concrete strings by evaluation. *)
Ltac forall_js :=
  repeat match goal with
  | |- Forall _ _ => constructor
  | |- _ /\ _ => split
  | |- ~ In _ _ => apply not_In_Z; reflexivity
  | |- _ = _ => reflexivity
  | |- _ => progress hnf
  end.

(** Splits the goal on every [if] and [match] on a boolean test. *)
Ltac case_bools :=
  repeat match goal with
  | |- context [if ?b then _ else _] => destruct b eqn:?
  end.
