(* ===== verification/JsString.v ===== *)
(** The JavaScript string operations the editor uses: the regular
    expression class [\s], [s.replace(/\s/g, "")], [String.prototype.split]
    with a one-code-unit separator and [Array.prototype.join], on strings of
    UTF-16 code units.  The lemmas are their algebra: idempotence of the
    replacement, the two round trips between [split] and [join], the number
    of pieces, and the pieces' contents. *)

From S2P Require Import Prelude.

Module Str.
Local Open Scope Z_scope.

(** [\s] in an ECMAScript regular expression: WhiteSpace (TAB, VT, FF,
    SPACE, NBSP, ZWNBSP and the category Zs) and LineTerminator (LF, CR,
    LS, PS). *)
Definition is_ws (c : Z) : bool :=
  ((9 <=? c) && (c <=? 13)) || (c =? 32) || (c =? 160) || (c =? 5760)
  || ((8192 <=? c) && (c <=? 8202)) || (c =? 8232) || (c =? 8233)
  || (c =? 8239) || (c =? 8287) || (c =? 12288) || (c =? 65279).

(** [s.replace(/\s/g, "")]: every match of [\s] (one code unit) is replaced
    by the empty string. *)
Fixpoint strip_ws (s : jstr) : jstr :=
  match s with
  | [] => []
  | c :: s' => if is_ws c then strip_ws s' else c :: strip_ws s'
  end.

Section Split.
Variable sep : Z.

(** [s.split(sep)] for a separator of one code unit, with its first piece
    apart, so that the result is visibly never empty. *)
Fixpoint split_ne (s : jstr) : jstr * list jstr :=
  match s with
  | [] => ([], [])
  | c :: s' =>
      let '(w, ws) := split_ne s' in
      if c =? sep then ([], w :: ws) else (c :: w, ws)
  end.

(** [s.split(sep)]: the pieces between the occurrences of [sep]; [""]
    splits into [[""]]. *)
Definition split (s : jstr) : list jstr :=
  let '(w, ws) := split_ne s in w :: ws.

End Split.

(** [l.join(sep)]. *)
Fixpoint join (sep : jstr) (l : list jstr) : jstr :=
  match l with
  | [] => []
  | x :: l' =>
      match l' with
      | [] => x
      | _ :: _ => x ++ sep ++ join sep l'
      end
  end.

Definition no_ws (s : jstr) : Prop := Forall (fun c => is_ws c = false) s.

(** ** The replacement *)

Lemma strip_ws_app (s t : jstr) : strip_ws (s ++ t) = strip_ws s ++ strip_ws t.
Proof. induction s as [|c s IH]; simpl; [done|]. destruct (is_ws c); simpl; congruence. Qed.

Lemma strip_ws_no_ws (s : jstr) : no_ws (strip_ws s).
Proof.
  induction s as [|c s IH]; simpl; [constructor|].
  destruct (is_ws c) eqn:E; [done | by constructor].
Qed.

Lemma strip_ws_id (s : jstr) : no_ws s -> strip_ws s = s.
Proof. induction 1 as [|c s Hc _ IH]; simpl; [done|]. by rewrite Hc, IH. Qed.

Lemma strip_ws_idem (s : jstr) : strip_ws (strip_ws s) = strip_ws s.
Proof. apply strip_ws_id, strip_ws_no_ws. Qed.

Lemma strip_ws_not_in (x : Z) (s : jstr) : ~ In x s -> ~ In x (strip_ws s).
Proof.
  induction s as [|c s IH]; simpl; [done|].
  intros Hn. destruct (is_ws c); simpl; intuition.
Qed.

(** ** Split *)

Lemma split_ne_sep (sep : Z) (s : jstr) :
  split_ne sep (sep :: s) = ([], split sep s).
Proof. unfold split. simpl. destruct (split_ne sep s). by rewrite Z.eqb_refl. Qed.

Lemma split_ne_app (sep : Z) (w s : jstr) :
  ~ In sep w ->
  split_ne sep (w ++ s) = let '(v, vs) := split_ne sep s in (w ++ v, vs).
Proof.
  induction w as [|c w IH]; simpl; intros Hn.
  - by destruct (split_ne sep s).
  - rewrite IH by tauto. destruct (split_ne sep s) as [v vs].
    destruct (Z.eqb_spec c sep); [subst; tauto | done].
Qed.

Lemma split_nonempty (sep : Z) (s : jstr) : split sep s <> [].
Proof. unfold split. by destruct (split_ne sep s). Qed.

Lemma join_cons_cons (sep x y : jstr) (l : list jstr) :
  join sep (x :: y :: l) = x ++ sep ++ join sep (y :: l).
Proof. reflexivity. Qed.

Lemma join_cons_head (sep : jstr) (c : Z) (w : jstr) (ws : list jstr) :
  join sep ((c :: w) :: ws) = c :: join sep (w :: ws).
Proof. by destruct ws. Qed.

(** [join] undoes [split]: [s.split(sep).join(sep) = s]. *)
Lemma join_split (sep : Z) (s : jstr) : join [sep] (split sep s) = s.
Proof.
  unfold split. induction s as [|c s IH]; simpl; [done|].
  destruct (split_ne sep s) as [w ws].
  destruct (Z.eqb_spec c sep) as [->|].
  - by rewrite join_cons_cons, IH.
  - by rewrite join_cons_head, IH.
Qed.

(** [split] undoes [join] on a non-empty list whose pieces do not contain
    the separator. *)
Lemma split_join (sep : Z) (x : jstr) (l : list jstr) :
  Forall (fun w => ~ In sep w) (x :: l) -> split sep (join [sep] (x :: l)) = x :: l.
Proof.
  revert x. induction l as [|y l IH]; intros x Hl; inversion Hl as [|? ? Hx Hrest]; subst.
  - change (join [sep] [x]) with x. unfold split. rewrite <- (app_nil_r x) at 1. rewrite split_ne_app by done.
    simpl. by rewrite app_nil_r.
  - rewrite join_cons_cons. unfold split. rewrite split_ne_app by done. change ([sep] ++ ?j) with (sep :: j).
    rewrite split_ne_sep, IH by done. by rewrite app_nil_r.
Qed.

(** The number of pieces is one more than the number of separators. *)
Lemma split_length (sep : Z) (s : jstr) :
  length (split sep s) = S (count_occ Z.eq_dec s sep).
Proof.
  unfold split. induction s as [|c s IH]; simpl; [done|].
  destruct (split_ne sep s) as [w ws]. simpl in IH.
  destruct (Z.eqb_spec c sep), (Z.eq_dec c sep); simpl; congruence.
Qed.

(** The pieces are made of code units of the input, and none of them
    contains the separator. *)
Lemma split_pieces (sep : Z) (P : Z -> Prop) (s : jstr) :
  Forall P s -> Forall (fun w => Forall P w /\ ~ In sep w) (split sep s).
Proof.
  unfold split. induction 1 as [|c s Hc _ IH]; simpl.
  - repeat constructor; auto.
  - destruct (split_ne sep s) as [w ws]. inversion IH as [|? ? [Hw Hn] Hws]; subst.
    destruct (Z.eqb_spec c sep) as [->|Hne].
    + repeat constructor; auto.
    + constructor; [|done]. split; [by constructor|]. simpl. intuition.
Qed.

(** ** Join *)

Lemma strip_ws_join (c : Z) (l : list jstr) :
  is_ws c = false -> strip_ws (join [c] l) = join [c] (map strip_ws l).
Proof.
  intros Hc. induction l as [|x l IH]; [done|].
  destruct l as [|y l]; [done|].
  rewrite join_cons_cons, !strip_ws_app, IH. simpl (strip_ws [c]). by rewrite Hc.
Qed.

#[export] Hint Resolve strip_ws_no_ws split_nonempty : blog.
#[export] Hint Rewrite strip_ws_idem join_split : blog_rw.

End Str.
