(* ===== verification/Tags.v ===== *)
(** The tag field of the post editor.  [AddPost] keeps the tags as one raw
    string [stringTags]; on submit it sends
    [stringTags.replace(/\s/g, "").split(",")] (line 53), and when it loads
    an existing post it shows [data.tags.join(",")] (line 82).  The theorems
    are the round trips between the two, what they lose (white space inside
    a tag, a tag holding a comma, the empty tag list) and the shape of the
    submitted list. *)

From S2P Require Import Prelude JsString.

Module Tags.
Import Str.

(** The code unit of [","]. *)
Definition comma : Z := 44%Z.

(** [stringTags.replace(/\s/g, "").split(",")]. *)
Definition tags_of_input (stringTags : jstr) : list jstr :=
  split comma (strip_ws stringTags).

(** [data.tags.join(",")]. *)
Definition tags_to_input (tags : list jstr) : jstr := join [comma] tags.

(** A tag the round trip keeps: no white space and no comma. *)
Definition plain_tag (t : jstr) : Prop := no_ws t /\ ~ In comma t.

Lemma comma_not_ws : is_ws comma = false.
Proof. reflexivity. Qed.

Lemma count_occ_strip_ws (s : jstr) :
  count_occ Z.eq_dec (strip_ws s) comma = count_occ Z.eq_dec s comma.
Proof.
  induction s as [|c s IH]; simpl; [done|].
  destruct (is_ws c) eqn:E; simpl; destruct (Z.eq_dec c comma); subst;
    rewrite ?IH; try done; by rewrite comma_not_ws in E.
Qed.

Lemma map_strip_ws_id (l : list jstr) : Forall no_ws l -> map strip_ws l = l.
Proof. induction 1; simpl; f_equal; auto using strip_ws_id. Qed.

(** Loading then submitting strips each tag when no tag holds a comma. *)
Lemma load_submit_strips (tags : list jstr) :
  tags <> [] -> Forall (fun t => ~ In comma t) tags ->
  tags_of_input (tags_to_input tags) = map strip_ws tags.
Proof.
  intros Hne Hc. destruct tags as [|t ts]; [done|].
  unfold tags_of_input, tags_to_input.
  rewrite strip_ws_join by apply comma_not_ws. simpl map.
  apply split_join. change (Forall (fun w => ~ In comma w) (map strip_ws (t :: ts))).
  apply Forall_map. eapply Forall_impl; [exact Hc|]. intros w. apply strip_ws_not_in.
Qed.

(** Loading then submitting plain tags gives them back. *)
Lemma load_submit_plain (tags : list jstr) :
  tags <> [] -> Forall plain_tag tags -> tags_of_input (tags_to_input tags) = tags.
Proof.
  intros Hne Hp. rewrite load_submit_strips by
    (done || (eapply Forall_impl; [exact Hp|]; intros ? []; done)).
  apply map_strip_ws_id. eapply Forall_impl; [exact Hp|]. by intros ? [].
Qed.

#[export] Hint Resolve comma_not_ws : blog.

(** ** Properties *)

(** C1. Loading what a submit produced shows the raw input without its white
    space: [tags.join(",")] of [stringTags.replace(/\s/g,"").split(",")] is
    [stringTags.replace(/\s/g,"")], for every input. *)
Theorem tags_input_roundtrip (s : jstr) :
  tags_to_input (tags_of_input s) = strip_ws s.
Proof. apply join_split. Qed.

(** C2. Submitting is idempotent across a load: submitting the field that a
    load of the submitted tags shows sends the same tags again. *)
Theorem tags_submit_idempotent (s : jstr) :
  tags_of_input (tags_to_input (tags_of_input s)) = tags_of_input s.
Proof.
  unfold tags_to_input, tags_of_input at 2. rewrite join_split.
  unfold tags_of_input. by rewrite strip_ws_idem.
Qed.

(** C3. Loading a post into the editor and submitting without edits sends,
    for a non-empty list of tags none of which contains a comma, each tag
    with its white space removed (the lossy case of the spec's section 9). *)
Theorem tags_load_submit_lossy (tags : list jstr) :
  tags <> [] -> Forall (fun t => ~ In comma t) tags ->
  tags_of_input (tags_to_input tags) = map strip_ws tags.
Proof. apply load_submit_strips. Qed.

Lemma tags_load_submit_lossy_witness :
  [⟪"web dev"⟫; ⟪"rocq"⟫] <> [] /\ Forall (fun t => ~ In comma t) [⟪"web dev"⟫; ⟪"rocq"⟫] /\
  tags_of_input (tags_to_input [⟪"web dev"⟫; ⟪"rocq"⟫]) = [⟪"webdev"⟫; ⟪"rocq"⟫].
Proof.
  assert (Hc : Forall (fun t => ~ In comma t) [⟪"web dev"⟫; ⟪"rocq"⟫])
    by forall_js.
  split; [discriminate|]. split; [exact Hc|].
  rewrite tags_load_submit_lossy; [reflexivity | done | exact Hc].
Defined.

(** C4. Round trip without loss: a non-empty list of tags without white space
    and without commas (as in Scenario B) comes back unchanged from a load
    followed by a submit. *)
Theorem tags_load_submit_roundtrip (tags : list jstr) :
  tags <> [] -> Forall plain_tag tags -> tags_of_input (tags_to_input tags) = tags.
Proof. apply load_submit_plain. Qed.

Lemma tags_load_submit_roundtrip_witness :
  tags_of_input (tags_to_input [⟪"x"⟫; ⟪"y"⟫]) = [⟪"x"⟫; ⟪"y"⟫].
Proof.
  apply tags_load_submit_roundtrip; [discriminate|].
  forall_js.
Defined.

(** C5. The submitted list has one tag more than the input has commas, and
    no tag contains white space or a comma. *)
Theorem tags_of_input_shape (s : jstr) :
  length (tags_of_input s) = S (count_occ Z.eq_dec s comma) /\
  Forall plain_tag (tags_of_input s).
Proof.
  unfold tags_of_input. split.
  - by rewrite split_length, count_occ_strip_ws.
  - pose proof (split_pieces comma _ _ (strip_ws_no_ws s)) as H.
    eapply Forall_impl; [exact H|]. intros w [Hw Hn]. split; assumption.
Qed.

(** C6. An input that is empty or only white space is submitted as the list
    holding one empty tag, not as the empty list: a post without tags,
    loaded and saved unchanged, gains the tag [""]. *)
Theorem tags_blank_input (s : jstr) :
  strip_ws s = [] -> tags_of_input s = [[]].
Proof. intros H. unfold tags_of_input. by rewrite H. Qed.

Lemma tags_blank_input_witness :
  strip_ws ⟪"  "⟫ = [] /\ tags_of_input (tags_to_input []) = [[]].
Proof. split; [reflexivity|]. apply tags_blank_input. reflexivity. Defined.

(** Scenario A of the spec: the raw field ["a, b ,c"] is sent as
    [["a","b","c"]]; a no-break space (U+00A0) is white space too. *)
Example scenario_A_tags :
  tags_of_input ⟪"a, b ,c"⟫ = [⟪"a"⟫; ⟪"b"⟫; ⟪"c"⟫] /\
  tags_of_input [97; 160; 98; 44; 99]%Z = [[97; 98]; [99]]%Z.
Proof. split; reflexivity. Qed.

(** Scenario B: tags [["x","y"]] are shown as ["x,y"]. *)
Example scenario_B_tags : tags_to_input [⟪"x"⟫; ⟪"y"⟫] = ⟪"x,y"⟫.
Proof. reflexivity. Qed.

(** Consecutive commas give empty tags; a tag holding a comma is split. *)
Example tags_empty_pieces :
  tags_of_input ⟪"a,,b,"⟫ = [⟪"a"⟫; []; ⟪"b"⟫; []] /\
  tags_of_input (tags_to_input [⟪"a,b"⟫]) = [⟪"a"⟫; ⟪"b"⟫].
Proof. split; reflexivity. Qed.

End Tags.
