(* ===== verification/Transport.v ===== *)
(** What the pages exchange with the outside world: the Post record the
    server returns, the HTTP requests the pages issue through axios, the
    completions of those requests, and the effects a handler asks for
    (a request tagged with the continuation that receives its completion,
    an [alert], a navigation).  The effect type is parametric in the type
    of continuations, which each page defines.  The transport contract of
    the spec's section 6 (which reply shape each request may receive) is
    the boolean [fits]. *)

From S2P Require Import Prelude.

(** The Post record of the server (the [data] of a successful
    [GET /posts/:id] or [POST /posts]).  [imageUrl] is optional in the
    server's schema, so it may be [undefined]. *)
Module Post.
Record author := mkAuthor { fullName : jstr; avatarUrl : option jstr }.

Record t := mkPost {
  _id : jstr;
  title : jstr;
  text : jstr;
  tags : list jstr;
  imageUrl : option jstr;
  user : author;
  createdAt : jstr;
  viewsCount : Z
}.
End Post.

Module Transport.

Inductive method := GET | POST | PATCH.

(** A file chosen in the file input; only its identity matters here. *)
Definition file := jstr.

(** The body [fields] of the create and update requests, in the order of
    the object literal of AddPost. *)
Record fields := mkFields {
  f_title : jstr;
  f_imageUrl : option jstr;
  f_tags : list jstr;
  f_text : jstr
}.

Inductive body :=
| NoBody
| JsonBody (f : fields)
| FormBody (name : jstr) (value : option file).

Record request := mkRequest { rq_method : method; rq_path : jstr; rq_body : body }.

(** How a request ends: a reply of the shape its endpoint returns, or a
    rejected promise (network error or non-2xx status). *)
Inductive completion :=
| Done_post (p : Post.t)
| Done_upload (url : option jstr)
| Done_auth (user : jstr)
| Done_ok
| Failed.

(** What a handler asks the outside world to do. *)
Inductive effect (K : Type) :=
| Fx_request (k : K) (rq : request)
| Fx_alert (msg : jstr)
| Fx_navigate (to : jstr).
Arguments Fx_request {K} k rq.
Arguments Fx_alert {K} msg.
Arguments Fx_navigate {K} to.

(** [`/posts/${id}`]. *)
Definition post_path (id : jstr) : jstr := ⟪"/posts/"⟫ ++ id.

(** The attachment host the image paths are resolved against
    ([`http://localhost:4444${imageUrl}`]). *)
Definition host : jstr := ⟪"http://localhost:4444"⟫.

(** The transport contract: "who am I" answers with the user, a fetch or
    a create with a Post, an update with any success, an upload with
    [{url}]; every request may fail. *)
Definition fits (rq : request) (c : completion) : bool :=
  match c, rq_method rq, rq_body rq with
  | Failed, _, _ => true
  | Done_auth _, GET, _ => bool_decide (rq_path rq = ⟪"/auth/me"⟫)
  | Done_post _, GET, _ => bool_decide (rq_path rq <> ⟪"/auth/me"⟫)
  | Done_post _, POST, JsonBody _ => true
  | Done_upload _, POST, FormBody _ _ => true
  | (Done_ok | Done_post _), PATCH, _ => true
  | _, _, _ => false
  end.

(** The requests among a list of effects. *)
Definition requests_of {K} (fx : list (effect K)) : list (K * request) :=
  fold_right (fun e acc => match e with Fx_request k rq => (k, rq) :: acc | _ => acc end) [] fx.

(** The navigations among a list of effects. *)
Definition navigations_of {K} (fx : list (effect K)) : list jstr :=
  fold_right (fun e acc => match e with Fx_navigate to => to :: acc | _ => acc end) [] fx.

Lemma requests_of_app {K} (a b : list (effect K)) :
  requests_of (a ++ b) = requests_of a ++ requests_of b.
Proof. induction a as [|[] a IH]; simpl; f_equal; auto. Qed.

End Transport.
