(* ===== verification/Auth.v ===== *)
(** The authentication session and its two readers in the sources: the
    write gate at the top of [AddPost] (line 107) and the [Header]
    component (its buttons and [onClickLogout]).  The session is the Redux
    auth slice's [data] (set by the "who am I" thunk, cleared by the
    [logout] action; the slice is not among the sources and is modelled from
    the spec) together with the [token] item of [localStorage]. *)

From S2P Require Import Prelude.

Module Auth.

(** [state.auth.data] (the authenticated user's payload, [null] when not
    authenticated) and [localStorage.getItem("token")]. *)
Record session := mkSession { auth_data : option jstr; token : option jstr }.

(** The session at application start before "who am I" resolves. *)
Definition session_init (stored : option jstr) : session := mkSession None stored.

(** [selectIsAuth = (state) => Boolean(state.auth.data)]. *)
Definition selectIsAuth (s : session) : bool :=
  match auth_data s with Some _ => true | None => false end.

(** The [logout] reducer: [state.data = null]. *)
Definition logout (s : session) : session := mkSession None (token s).

(** The condition under which [AddPost] renders [<Navigate to="/" />]:
    [!window.localStorage.getItem("token") && !isAuth]. *)
Definition gate_redirects (s : session) : bool :=
  negb (truthy (token s)) && negb (selectIsAuth s).

(** [canWrite] of the spec: the gate lets the editor render. *)
Definition canWrite (s : session) : bool := negb (gate_redirects s).

(** What the header shows: links (target, label) and the logout button. *)
Inductive item := Link (to label : jstr) | LogoutButton (label : jstr).

(** [Header]'s markup, by [isAuth]. *)
Definition Header (isAuth : bool) : list item :=
  Link ⟪"/"⟫ ⟪"WIZMINE BLOG"⟫ ::
  if isAuth
  then [Link ⟪"/add-post"⟫ ⟪"Write an article"⟫; LogoutButton ⟪"Exit"⟫]
  else [Link ⟪"/login"⟫ ⟪"Exit"⟫; Link ⟪"/register"⟫ ⟪"Create account"⟫].

(** [onClickLogout]: when [window.confirm] answers yes, dispatch [logout()]
    and remove the token. *)
Definition onClickLogout (confirmed : bool) (s : session) : session :=
  if confirmed then mkSession (auth_data (logout s)) None else s.

Definition shows_write_link (items : list item) : bool :=
  existsb (fun i => match i with
                    | Link to _ => bool_decide (to = ⟪"/add-post"⟫)
                    | _ => false
                    end) items.

(** ** Properties *)

Lemma canWrite_true_iff (s : session) :
  canWrite s = true <-> truthy (token s) = true \/ selectIsAuth s = true.
Proof.
  unfold canWrite, gate_redirects.
  destruct (truthy (token s)), (selectIsAuth s); simpl; intuition congruence.
Qed.

(** C7. The write gate: the editor may render exactly when a non-empty
    token is stored or the session holds user data; with neither it
    redirects. *)
Theorem write_gate_spec (s : session) :
  canWrite s = true <->
  (exists c t, token s = Some (c :: t)) \/ (exists u, auth_data s = Some u).
Proof.
  rewrite canWrite_true_iff, truthy_iff. unfold selectIsAuth.
  destruct (auth_data s); split; intros [H|H]; eauto; try discriminate;
    destruct H; discriminate.
Qed.

(** C8. A confirmed logout closes the write gate and hides the write link,
    whatever the session was; a cancelled one changes nothing. *)
Theorem logout_closes_gate (s : session) :
  canWrite (onClickLogout true s) = false /\
  shows_write_link (Header (selectIsAuth (onClickLogout true s))) = false /\
  onClickLogout false s = s.
Proof. repeat split. Qed.

(** C9. The header and the write gate disagree: a session with a stored
    token whose "who am I" has not (or not successfully) resolved passes
    the gate of [/add-post], but the header hides the link to it and shows
    the login link, labelled "Exit". *)
Theorem header_gate_disagree (t : jstr) :
  t <> [] ->
  let s := mkSession None (Some t) in
  canWrite s = true /\ shows_write_link (Header (selectIsAuth s)) = false /\
  In (Link ⟪"/login"⟫ ⟪"Exit"⟫) (Header (selectIsAuth s)).
Proof.
  intros Ht. destruct t as [|c t]; [done|]. repeat split. simpl. auto.
Qed.

Lemma header_gate_disagree_witness :
  let s := mkSession None (Some ⟪"eyJhbGci"⟫) in
  canWrite s = true /\ shows_write_link (Header (selectIsAuth s)) = false /\
  In (Link ⟪"/login"⟫ ⟪"Exit"⟫) (Header (selectIsAuth s)).
Proof. apply header_gate_disagree. discriminate. Defined.

(** The header shows the write link exactly when the session is
    authenticated. *)
Lemma header_write_link (b : bool) : shows_write_link (Header b) = b.
Proof. by destruct b. Qed.

End Auth.
