(* ===== verification/Editor.v ===== *)
(** The post editor, [AddPost] of [src/src/pages/AddPost/index.jsx].
    Its state is the five [useState] cells (the record [draft]); its route
    parameter [id] is [undefined] on [/add-post] (create) and the post's
    identifier on [/posts/:id/edit] (edit).  Every handler is a function
    from the draft to the new draft and the effects it issues; the code
    after an [await] or in a [.then]/[.catch] is a separate continuation,
    named by [cont], which receives the request's [completion]. *)

From S2P Require Import Prelude JsString Tags Transport Auth.

Module AddPost.
Import Transport Tags.

(** The [useState] cells, in the order of the source. *)
Record draft := mkDraft {
  isLoading : bool;
  text : jstr;
  title : jstr;
  stringTags : jstr;
  imageUrl : option jstr
}.

(** Initial values: [false], [""], [""], [""], [""]. *)
Definition draft_init : draft := mkDraft false [] [] [] (Some []).

(** The state setters. *)
Definition setLoading (b : bool) (d : draft) : draft :=
  mkDraft b (text d) (title d) (stringTags d) (imageUrl d).
Definition setText (t : jstr) (d : draft) : draft :=
  mkDraft (isLoading d) t (title d) (stringTags d) (imageUrl d).
Definition setTitle (t : jstr) (d : draft) : draft :=
  mkDraft (isLoading d) (text d) t (stringTags d) (imageUrl d).
Definition setTags (t : jstr) (d : draft) : draft :=
  mkDraft (isLoading d) (text d) (title d) t (imageUrl d).
Definition setImageUrl (u : option jstr) (d : draft) : draft :=
  mkDraft (isLoading d) (text d) (title d) (stringTags d) u.

(** [const isEditing = Boolean(id)]. *)
Definition isEditing (id : option jstr) : bool := truthy id.

(** The continuations: after the upload's [await], after the submit's
    [await] (the closure captures [isEditing] and [id]), and the [.then] /
    [.catch] of the load. *)
Inductive cont :=
| K_upload
| K_submit (editing : bool) (id : option jstr)
| K_load.

Definition result : Type := draft * list (effect cont).

(** [data.url] and [data._id] of a reply: [undefined] when the reply has
    no such field. *)
Definition reply_url (c : completion) : option jstr :=
  match c with Done_upload u => u | _ => None end.
Definition reply_id (c : completion) : option jstr :=
  match c with Done_post p => Some (Post._id p) | _ => None end.

(** [handleChangeFile] up to its [await]: post the first selected file
    (or [undefined]) under the form field ["image"]. *)
Definition handleChangeFile (files : list file) (d : draft) : result :=
  (d, [Fx_request K_upload (mkRequest POST ⟪"/upload"⟫ (FormBody ⟪"image"⟫ (head files)))]).

(** The rest of [handleChangeFile]: [setImageUrl(data.url)], or the
    [catch] branch. *)
Definition handleChangeFile_done (c : completion) (d : draft) : result :=
  match c with
  | Failed => (d, [Fx_alert ⟪"Error loading file!"⟫])
  | _ => (setImageUrl (reply_url c) d, [])
  end.

(** [onClickRemoveImage]. *)
Definition onClickRemoveImage (d : draft) : draft := setImageUrl (Some []) d.

(** The body of the create and update requests. *)
Definition submit_fields (d : draft) : fields :=
  mkFields (title d) (imageUrl d) (tags_of_input (stringTags d)) (text d).

(** [onSubmit] up to its [await]. *)
Definition onSubmit (id : option jstr) (d : draft) : result :=
  let d1 := setLoading true d in
  let rq := if isEditing id
            then mkRequest PATCH (post_path (to_str id)) (JsonBody (submit_fields d))
            else mkRequest POST ⟪"/posts"⟫ (JsonBody (submit_fields d)) in
  (d1, [Fx_request (K_submit (isEditing id) id) rq]).

(** The rest of [onSubmit]: navigate to [`/posts/${_id}`], or the [catch]
    branch. *)
Definition onSubmit_done (editing : bool) (id : option jstr) (c : completion)
    (d : draft) : result :=
  match c with
  | Failed => (d, [Fx_alert ⟪"Error while creating article!"⟫])
  | _ =>
      let _id := if editing then id else reply_id c in
      (d, [Fx_navigate (post_path (to_str _id))])
  end.

(** The [useEffect] on [[id]]: fetch the post when [id] is truthy. *)
Definition load_effect (id : option jstr) : list (effect cont) :=
  if truthy id then [Fx_request K_load (mkRequest GET (post_path (to_str id)) NoBody)]
  else [].

(** The [.then] of the load copies the post into the draft (the tags
    joined with commas); the [.catch] alerts.  A reply that is not a Post
    (which the transport contract excludes) makes [data.tags.join] throw,
    which lands in the same [.catch]. *)
Definition load_done (c : completion) (d : draft) : result :=
  match c with
  | Done_post p =>
      (setImageUrl (Post.imageUrl p)
        (setTags (tags_to_input (Post.tags p))
          (setText (Post.text p) (setTitle (Post.title p) d))), [])
  | _ => (d, [Fx_alert ⟪"Error while getting article!"⟫])
  end.

(** The user's actions on the form. *)
Inductive event :=
| ChangeFile (files : list file)
| RemoveImage
| ChangeText (t : jstr)
| ChangeTitle (t : jstr)
| ChangeTags (t : jstr)
| Submit.

(** Dispatch of a user action to its handler. *)
Definition handle (id : option jstr) (ev : event) (d : draft) : result :=
  match ev with
  | ChangeFile fs => handleChangeFile fs d
  | RemoveImage => (onClickRemoveImage d, [])
  | ChangeText t => (setText t d, [])
  | ChangeTitle t => (setTitle t d, [])
  | ChangeTags t => (setTags t d, [])
  | Submit => onSubmit id d
  end.

(** Dispatch of a completion to its continuation. *)
Definition resume (k : cont) (c : completion) (d : draft) : result :=
  match k with
  | K_upload => handleChangeFile_done c d
  | K_submit e i => onSubmit_done e i c d
  | K_load => load_done c d
  end.

(** What the component renders. *)
Inductive view :=
| Redirect (to : jstr)
| Form (preview : option jstr) (title tags text : jstr) (button : jstr).

(** The render: the gate first, then the form, with the preview image
    [`http://localhost:4444${imageUrl}`] when [imageUrl] is truthy. *)
Definition render (s : Auth.session) (id : option jstr) (d : draft) : view :=
  if Auth.gate_redirects s then Redirect ⟪"/"⟫
  else Form (if truthy (imageUrl d) then Some (host ++ to_str (imageUrl d)) else None)
            (title d) (stringTags d) (text d)
            (if isEditing id then ⟪"Save"⟫ else ⟪"Create"⟫).

(** Mounting the component: the initial draft, and the effect of the
    [useEffect], which runs after the first render whatever that render
    returned. *)
Definition mount (id : option jstr) : result := (draft_init, load_effect id).

(** A new [id] for a mounted component: the state is kept and the effect
    runs again when [id] changed. *)
Definition params_change (old new : option jstr) (d : draft) : result :=
  (d, if bool_decide (old = new) then [] else load_effect new).

(** The [autosave] part of the SimpleMDE options.  The object literal has
    no [uniqueId] property, so reading it gives [undefined]. *)
Record autosave_options := mkAutosave {
  enabled : bool;
  delay : Z;
  uniqueId : option jstr
}.

(** The SimpleMDE options object, with its fields in the source's order. *)
Record mde_options := mkOptions {
  spellChecker : bool;
  maxHeight : jstr;
  autofocus : bool;
  placeholder : jstr;
  status : bool;
  autosave : autosave_options
}.

(** [React.useMemo(() => ({...}), [])]: the options are computed once per
    mounted instance and do not depend on the draft. *)
Definition options : mde_options :=
  mkOptions false ⟪"400px"⟫ true ⟪"Enter text..."⟫ false (mkAutosave true 1000%Z None).

(** A post as the server returns it. *)
Definition sample_post : Post.t :=
  Post.mkPost ⟪"65a1"⟫ ⟪"Hello"⟫ ⟪"World"⟫ [⟪"x"⟫; ⟪"y"⟫] (Some ⟪"/uploads/foo.png"⟫)
    (Post.mkAuthor ⟪"John Smith"⟫ None) ⟪"2024-01-01"⟫ 0%Z.

(** The draft with its loading flag forgotten: the four content fields. *)
Definition content (d : draft) : draft := setLoading false d.

(** ** Properties *)

(** C10. [onSubmit] changes only the loading flag and issues one request,
    whose body carries the draft's title, image, text and the tags derived
    from the raw field; in edit mode it is a [PATCH] of [/posts/<id>] (an
    edit never creates a post), in create mode a [POST] of [/posts]. *)
Theorem onSubmit_request (id : option jstr) (d : draft) :
  content (fst (onSubmit id d)) = content d /\ isLoading (fst (onSubmit id d)) = true /\
  exists rq, snd (onSubmit id d) = [Fx_request (K_submit (isEditing id) id) rq] /\
    rq_body rq = JsonBody (mkFields (title d) (imageUrl d) (tags_of_input (stringTags d)) (text d)) /\
    (if isEditing id then (rq_method rq = PATCH /\ rq_path rq = post_path (to_str id))
     else (rq_method rq = POST /\ rq_path rq = ⟪"/posts"⟫)).
Proof.
  split; [done|]. split; [done|].
  unfold onSubmit. destruct (isEditing id); eexists; repeat split.
Qed.

(** C11. A failed submit keeps the draft's content, alerts, and does not
    navigate; the loading flag set by the submit is never reset. *)
Theorem submit_failure_keeps_draft (id : option jstr) (d : draft) :
  resume (K_submit (isEditing id) id) Failed (fst (onSubmit id d)) =
    (setLoading true d, [Fx_alert ⟪"Error while creating article!"⟫]) /\
  content (setLoading true d) = content d.
Proof. split; reflexivity. Qed.

(** C12. The image upload is independent of the other fields: whatever the
    upload's outcome, its continuation leaves title, text, tags and the
    loading flag alone; a failure also leaves [imageUrl] as it was and
    alerts, a success stores the returned [url]. *)
Theorem upload_only_touches_image (c : completion) (d : draft) :
  title (fst (handleChangeFile_done c d)) = title d /\
  text (fst (handleChangeFile_done c d)) = text d /\
  stringTags (fst (handleChangeFile_done c d)) = stringTags d /\
  isLoading (fst (handleChangeFile_done c d)) = isLoading d /\
  (c = Failed -> handleChangeFile_done c d = (d, [Fx_alert ⟪"Error loading file!"⟫])) /\
  (forall url, c = Done_upload url -> imageUrl (fst (handleChangeFile_done c d)) = url).
Proof.
  destruct c; simpl; repeat split; intros; subst; try discriminate; try done.
  by injection H as ->.
Qed.

(** C13. After a successful submit the editor navigates to the article
    view of the post it wrote: in edit mode to exactly the path it
    patched, in create mode to [/posts/<the server-assigned _id>]. *)
Theorem submit_success_navigates (id : option jstr) (d : draft) (c : completion) :
  c <> Failed ->
  exists k rq, snd (onSubmit id d) = [Fx_request k rq] /\
    (isEditing id = true -> snd (resume k c (fst (onSubmit id d))) = [Fx_navigate (rq_path rq)]) /\
    (forall p, isEditing id = false -> c = Done_post p ->
       snd (resume k c (fst (onSubmit id d))) = [Fx_navigate (post_path (Post._id p))]).
Proof.
  intros Hc. unfold onSubmit.
  destruct (isEditing id) eqn:E; do 2 eexists; (split; [reflexivity|]);
    split; intros; try discriminate; subst; [destruct c | ]; done.
Qed.

Lemma submit_success_navigates_witness :
  Done_ok <> Failed /\
  exists k rq, snd (onSubmit (Some ⟪"65a1"⟫) draft_init) = [Fx_request k rq] /\
    (isEditing (Some ⟪"65a1"⟫) = true ->
     snd (resume k Done_ok (fst (onSubmit (Some ⟪"65a1"⟫) draft_init))) = [Fx_navigate (rq_path rq)]) /\
    (forall p, isEditing (Some ⟪"65a1"⟫) = false -> Done_ok = Done_post p ->
       snd (resume k Done_ok (fst (onSubmit (Some ⟪"65a1"⟫) draft_init))) =
         [Fx_navigate (post_path (Post._id p))]).
Proof. split; [discriminate|]. apply submit_success_navigates. discriminate. Defined.

(** C14. Editing without changes (Scenario B): loading a post into the
    editor and saving it at once sends back the post's own title, image,
    text and tags, as a [PATCH] of the post, when its tags are non-empty and
    free of white space and commas. *)
Theorem edit_without_changes (id : jstr) (p : Post.t) (d0 : draft) :
  id <> [] -> Post.tags p <> [] -> Forall plain_tag (Post.tags p) ->
  snd (onSubmit (Some id) (fst (load_done (Done_post p) d0))) =
    [Fx_request (K_submit true (Some id))
       (mkRequest PATCH (post_path id)
          (JsonBody (mkFields (Post.title p) (Post.imageUrl p) (Post.tags p) (Post.text p))))].
Proof.
  intros Hid Hne Hp. destruct id as [|c id]; [done|].
  unfold onSubmit, submit_fields. simpl. by rewrite load_submit_plain.
Qed.

Lemma edit_without_changes_witness :
  snd (onSubmit (Some ⟪"65a1"⟫) (fst (load_done (Done_post sample_post) draft_init))) =
    [Fx_request (K_submit true (Some ⟪"65a1"⟫))
       (mkRequest PATCH (post_path ⟪"65a1"⟫)
          (JsonBody (mkFields ⟪"Hello"⟫ (Some ⟪"/uploads/foo.png"⟫) [⟪"x"⟫; ⟪"y"⟫] ⟪"World"⟫)))].
Proof. apply (edit_without_changes _ sample_post); [discriminate | discriminate | forall_js]. Defined.

(** C15. The write gate of the editor, against the session itself: it
    renders [<Navigate to="/" />] exactly when no non-empty token is stored
    and the auth slice holds no user, in both modes and whatever the
    draft; when either is present it renders the form with the draft's
    title, tags and text, its preview, and the button of its mode. *)
Theorem render_gate (s : Auth.session) (id : option jstr) (d : draft) :
  (render s id d = Redirect ⟪"/"⟫ <->
     (forall c t, Auth.token s <> Some (c :: t)) /\ Auth.auth_data s = None) /\
  ((exists c t, Auth.token s = Some (c :: t)) \/ (exists u, Auth.auth_data s = Some u) ->
   render s id d =
     Form (if truthy (imageUrl d) then Some (host ++ to_str (imageUrl d)) else None)
       (title d) (stringTags d) (text d) (if isEditing id then ⟪"Save"⟫ else ⟪"Create"⟫)).
Proof.
  destruct s as [[u|] [[|c t]|]]; unfold render, Auth.gate_redirects, Auth.selectIsAuth; simpl;
    (split; [split|]); intros H; try done; try naive_solver.
Qed.

(** C16. The gate does not stop the load: an actor who may not write and
    opens [/posts/<id>/edit] is redirected, yet the mounted component has
    already issued [GET /posts/<id>] (the effect runs after the render
    that returned the redirect). *)
Theorem gate_does_not_stop_load (s : Auth.session) (id : jstr) :
  Auth.canWrite s = false -> id <> [] ->
  render s (Some id) (fst (mount (Some id))) = Redirect ⟪"/"⟫ /\
  requests_of (snd (mount (Some id))) = [(K_load, mkRequest GET (post_path id) NoBody)].
Proof.
  intros Hs Hid. split.
  - unfold render. unfold Auth.canWrite in Hs. apply negb_false_iff in Hs. by rewrite Hs.
  - destruct id; [done|]. reflexivity.
Qed.

Lemma gate_does_not_stop_load_witness :
  Auth.canWrite (Auth.mkSession None None) = false /\
  render (Auth.mkSession None None) (Some ⟪"65a1"⟫) (fst (mount (Some ⟪"65a1"⟫))) = Redirect ⟪"/"⟫ /\
  requests_of (snd (mount (Some ⟪"65a1"⟫))) = [(K_load, mkRequest GET (post_path ⟪"65a1"⟫) NoBody)].
Proof. split; [reflexivity|]. apply gate_does_not_stop_load; [reflexivity | discriminate]. Defined.

(** C17. The preview: an upload that returns a non-empty [url] shows the
    image [http://localhost:4444<url>] and submits that [url]; removing the
    image hides the preview and submits [imageUrl: ""]. *)
Theorem image_preview (s : Auth.session) (id : option jstr) (d : draft) (u : jstr) :
  Auth.canWrite s = true -> u <> [] ->
  (exists t g x b, render s id (fst (handleChangeFile_done (Done_upload (Some u)) d)) =
                   Form (Some (host ++ u)) t g x b) /\
  f_imageUrl (submit_fields (fst (handleChangeFile_done (Done_upload (Some u)) d))) = Some u /\
  (exists t g x b, render s id (onClickRemoveImage d) = Form None t g x b) /\
  f_imageUrl (submit_fields (onClickRemoveImage d)) = Some [].
Proof.
  intros Hs Hu. unfold Auth.canWrite in Hs. apply negb_true_iff in Hs.
  unfold render. rewrite Hs. destruct u as [|c u]; [done|].
  repeat split; eauto 6.
Qed.

Lemma image_preview_witness :
  exists t g x b, render (Auth.mkSession (Some ⟪"me"⟫) None) None
     (fst (handleChangeFile_done (Done_upload (Some ⟪"/uploads/a.png"⟫)) draft_init)) =
     Form (Some (host ++ ⟪"/uploads/a.png"⟫)) t g x b.
Proof.
  apply (image_preview (Auth.mkSession (Some ⟪"me"⟫) None) None draft_init ⟪"/uploads/a.png"⟫);
    [reflexivity | discriminate].
Defined.

(** Scenario C: an upload fails while [imageUrl] is ["foo.png"]. *)
Example scenario_C_upload_failure :
  let d := mkDraft false ⟪"body"⟫ ⟪"Hello"⟫ ⟪"a,b"⟫ (Some ⟪"foo.png"⟫) in
  resume K_upload Failed (fst (handle None (ChangeFile [⟪"big.png"⟫]) d)) =
    (d, [Fx_alert ⟪"Error loading file!"⟫]).
Proof. reflexivity. Qed.

(** Scenario A: creating with title "Hello", text "World", tags
    ["a, b ,c"] and no image posts [tags = ["a","b","c"]], [imageUrl = ""],
    and a reply with [_id] navigates to its article. *)
Example scenario_A_create :
  let d := mkDraft false ⟪"World"⟫ ⟪"Hello"⟫ ⟪"a, b ,c"⟫ (Some []) in
  snd (onSubmit None d) =
    [Fx_request (K_submit false None)
       (mkRequest POST ⟪"/posts"⟫
          (JsonBody (mkFields ⟪"Hello"⟫ (Some []) [⟪"a"⟫; ⟪"b"⟫; ⟪"c"⟫] ⟪"World"⟫)))] /\
  snd (resume (K_submit false None) (Done_post sample_post) (fst (onSubmit None d))) =
    [Fx_navigate ⟪"/posts/65a1"⟫].
Proof. split; reflexivity. Qed.

End AddPost.
