(* ===== verification/View.v ===== *)
(** The article view, [FullPost] of [src/src/pages/FullPost.jsx].  Its
    state is the two [useState] cells [data] (initially [undefined]) and
    [isLoading] (initially [true]); its [useEffect] on [[id]] fetches
    [/posts/<id>], and the fetch's [.then] stores the post and clears the
    loading flag.  The render is a placeholder while loading, and otherwise
    the article card with its derived fields next to a comment block whose
    comments are written into the source. *)

From S2P Require Import Prelude Transport.

Module FullPost.
Import Transport.

Record view := mkView { data : option Post.t; isLoading : bool }.

Definition view_init : view := mkView None true.

(** The only continuation: the [.then]/[.catch] of the fetch. *)
Inductive cont := K_fetch.

Definition result : Type := view * list (effect cont).

(** The [useEffect] body for the route parameter [id]. *)
Definition fetch_effect (id : jstr) : list (effect cont) :=
  [Fx_request K_fetch (mkRequest GET (post_path id) NoBody)].

(** [.then((res) => { setData(res.data); setLoading(false); })] and
    [.catch(... alert("Error receiving article"))].  A success that is not
    a Post is outside the transport contract and ignored. *)
Definition fetch_done (c : completion) (v : view) : result :=
  match c with
  | Done_post p => (mkView (Some p) false, [])
  | Failed => (v, [Fx_alert ⟪"Error receiving article"⟫])
  | _ => (v, [])
  end.

(** A new [id] for the mounted component: the state is kept, and the
    effect runs again when [id] changed. *)
Definition params_change (old new : jstr) (v : view) : result :=
  (v, if bool_decide (old = new) then [] else fetch_effect new).

(** The props given to [<Post>]. *)
Record card := mkCard {
  c_id : jstr;
  c_title : jstr;
  c_imageUrl : jstr;
  c_user : Post.author;
  c_createdAt : jstr;
  c_viewsCount : Z;
  c_commentsCount : Z;
  c_tags : list jstr;
  c_text : jstr
}.

Record comment := mkComment { cm_user : Post.author; cm_text : jstr }.

(** The [items] of [<CommentsBlock>], written into the source. *)
Definition static_comments : list comment :=
  [mkComment (Post.mkAuthor ⟪"John Smith"⟫ (Some ⟪"https://mui.com/static/images/avatar/1.jpg"⟫))
     ⟪"This is a test comment 555555"⟫;
   mkComment (Post.mkAuthor ⟪"Alex Steven"⟫ (Some ⟪"https://mui.com/static/images/avatar/2.jpg"⟫))
     ⟪"When displaying three lines or more, the avatar is not aligned at the top. You should set the prop to align the avatar at the top"⟫].

Inductive screen :=
| Placeholder
| Article (c : card) (comments : list comment).

(** [data.imageUrl ? `http://localhost:4444${data.imageUrl}` : ""]. *)
Definition display_image (u : option jstr) : jstr :=
  if truthy u then host ++ to_str u else [].

(** The render; [None] is the [TypeError] of reading [data._id] while
    [data] is [undefined]. *)
Definition render (v : view) : option screen :=
  if isLoading v then Some Placeholder
  else match data v with
       | Some p =>
           Some (Article
                   (mkCard (Post._id p) (Post.title p) (display_image (Post.imageUrl p))
                      (Post.user p) (Post.createdAt p) (Post.viewsCount p) 3%Z
                      (Post.tags p) (Post.text p))
                   static_comments)
       | None => None
       end.

(** The states a mounted view goes through: completions of its fetches,
    in any number and order. *)
Inductive reachable : view -> Prop :=
| reach_init : reachable view_init
| reach_fetch (v : view) (c : completion) : reachable v -> reachable (fst (fetch_done c v)).

(** The view's invariant: once loaded, the post is there. *)
Definition view_ok (v : view) : Prop := isLoading v = false -> data v <> None.

(** ** Properties *)

Lemma fetch_done_ok (c : completion) (v : view) : view_ok v -> view_ok (fst (fetch_done c v)).
Proof. unfold view_ok. destruct c; simpl; auto; discriminate. Qed.

Lemma render_ok (v : view) : view_ok v -> render v <> None.
Proof.
  unfold view_ok, render. destruct (isLoading v); [done|].
  destruct (data v); [done|]. intros H. by destruct H.
Qed.

#[export] Hint Resolve fetch_done_ok render_ok : blog.

(** C18. The derived display fields: a loaded post is shown with its own
    identifier, title, author, date, view count, tags and text, and its
    image as the attachment host followed by [imageUrl] when [imageUrl] is
    a non-empty string, and as [""] (no image) when it is empty or
    missing. *)
Theorem display_fields (p : Post.t) :
  exists c, render (mkView (Some p) false) = Some (Article c static_comments) /\
    c_id c = Post._id p /\ c_title c = Post.title p /\ c_user c = Post.user p /\
    c_createdAt c = Post.createdAt p /\ c_viewsCount c = Post.viewsCount p /\
    c_tags c = Post.tags p /\ c_text c = Post.text p /\
    c_imageUrl c = match Post.imageUrl p with
                   | Some (x :: u) => host ++ x :: u
                   | _ => []
                   end.
Proof.
  eexists. split; [reflexivity|]. simpl. repeat split.
  unfold display_image. by destruct (Post.imageUrl p) as [[|x u]|].
Qed.

(** C19. The view's invariant holds in every reachable state, so the
    render never reads a field of a missing post. *)
Theorem view_invariant (v : view) : reachable v -> view_ok v /\ render v <> None.
Proof.
  intros H. assert (view_ok v) as Hok.
  - induction H; auto with blog. unfold view_ok. discriminate.
  - auto with blog.
Qed.

Lemma view_invariant_witness :
  reachable (fst (fetch_done (Done_post (Post.mkPost ⟪"1"⟫ [] [] [] None
    (Post.mkAuthor [] None) [] 0%Z)) view_init)) /\
  render (fst (fetch_done (Done_post (Post.mkPost ⟪"1"⟫ [] [] [] None
    (Post.mkAuthor [] None) [] 0%Z)) view_init)) <> None.
Proof.
  assert (H : reachable (fst (fetch_done (Done_post (Post.mkPost ⟪"1"⟫ [] [] [] None
    (Post.mkAuthor [] None) [] 0%Z)) view_init))) by (apply reach_fetch, reach_init).
  split; [exact H | apply (view_invariant _ H)].
Defined.

(** C20. A failed fetch changes nothing, alerts once and is not retried;
    a view whose first fetch failed shows the placeholder for good. *)
Theorem fetch_failure_no_retry (v : view) :
  fetch_done Failed v = (v, [Fx_alert ⟪"Error receiving article"⟫]) /\
  requests_of (snd (fetch_done Failed v)) = [] /\
  render (fst (fetch_done Failed view_init)) = Some Placeholder.
Proof. repeat split. Qed.

End FullPost.
