(* ===== verification/App.v ===== *)
(** The application: the route table of [App] and the composition of the
    pages, the session and the network into one state machine.

    The world holds the session, the current location, the mounted page
    instance, a generation counter that names the instance (it grows at
    every mount), the pending requests (each tagged with the generation of
    the instance that issued it and the continuation that receives its
    completion) and the alerts shown so far.  One step is a user action, a
    navigation, a full page load, or the completion of any one pending
    request: completions may arrive in any order.

    React's rules are followed: a route change that renders the same page
    component (two [/posts/:id] locations, or [/posts/:id/edit] and
    [/add-post]) keeps the mounted instance and its state and re-runs the
    effects whose dependencies changed; any other route change unmounts
    the instance and mounts a fresh one; [setState] on an unmounted
    instance does nothing, but the rest of a continuation (its [alert], its
    [navigate]) still runs.  After every step, an editor whose write gate
    closed renders [<Navigate to="/" />], which is followed. *)

From S2P Require Import Prelude JsString Tags Transport Auth Editor View.

Module App.
Import Transport.

(** ** Routes *)

Inductive page :=
| Home
| FullPostPage (id : jstr)
| AddPostPage (id : option jstr)
| LoginPage
| RegistrationPage
| NoMatch.

Definition slash : Z := 47%Z.

(** React Router compares the static parts of a path without regard to
    ASCII case (its matcher is a regular expression with the [i] flag). *)
Definition ascii_lower (c : Z) : Z := if (65 <=? c)%Z && (c <=? 90)%Z then (c + 32)%Z else c.

Definition seg_is (s lit : jstr) : bool := bool_decide (map ascii_lower s = lit).

(** Any number of trailing slashes is ignored. *)
Fixpoint drop_trailing_empty (segs : list jstr) : list jstr :=
  match segs with
  | [] => []
  | s :: rest =>
      match drop_trailing_empty rest with
      | [] => if bool_decide (s = []) then [] else [s]
      | r => s :: r
      end
  end.

(** The segments of a location path after its leading [/]. *)
Definition segments (path : jstr) : list jstr :=
  match Str.split slash path with
  | [] :: segs => drop_trailing_empty segs
  | _ => [[ascii_lower slash]]
  end.

(** The [<Routes>] of [App]: the first route whose pattern matches; a
    dynamic segment [:id] matches a non-empty segment. *)
Definition route (path : jstr) : page :=
  match segments path with
  | [] => Home
  | [a] =>
      if seg_is a ⟪"add-post"⟫ then AddPostPage None
      else if seg_is a ⟪"login"⟫ then LoginPage
      else if seg_is a ⟪"register"⟫ then RegistrationPage
      else NoMatch
  | [a; x] => if seg_is a ⟪"posts"⟫ && bool_decide (x <> []) then FullPostPage x else NoMatch
  | [a; x; e] =>
      if seg_is a ⟪"posts"⟫ && bool_decide (x <> []) && seg_is e ⟪"edit"⟫
      then AddPostPage (Some x) else NoMatch
  | _ => NoMatch
  end.

(** ** The world *)

Inductive instance :=
| I_editor (id : option jstr) (d : AddPost.draft)
| I_view (id : jstr) (v : FullPost.view)
| I_static (p : page).

(** Continuations of the whole application: the pages' and the start-up
    "who am I" request of [App]. *)
Inductive acont :=
| A_editor (k : AddPost.cont)
| A_view (k : FullPost.cont)
| A_authMe.

Record pending := mkPending { pd_gen : nat; pd_cont : acont; pd_req : request }.

Record world := mkWorld {
  session : Auth.session;
  location : jstr;
  inst : instance;
  gen : nat;
  queue : list pending;
  alerts : list jstr
}.

Definition set_inst (i : instance) (w : world) : world :=
  mkWorld (session w) (location w) i (gen w) (queue w) (alerts w).
Definition set_session (s : Auth.session) (w : world) : world :=
  mkWorld s (location w) (inst w) (gen w) (queue w) (alerts w).

(** The "who am I" request of [fetchAuthMe] (the auth slice is not among
    the sources). *)
Definition authMe_request : request := mkRequest GET ⟪"/auth/me"⟫ NoBody.

(** The auth slice's reducers for [fetchAuthMe]: fulfilled stores the
    payload, rejected clears it. *)
Definition authMe_done (c : completion) (s : Auth.session) : Auth.session :=
  match c with
  | Done_auth u => Auth.mkSession (Some u) (Auth.token s)
  | _ => Auth.mkSession None (Auth.token s)
  end.

(** The requests and alerts of a list of effects, issued by the instance of
    generation [g]; navigations are followed by the caller. *)
Definition emit {K} (g : nat) (wrap : K -> acont) (fx : list (effect K)) (w : world) : world :=
  mkWorld (session w) (location w) (inst w) (gen w)
    (queue w ++ map (fun '(k, rq) => mkPending g (wrap k) rq) (requests_of fx))
    (alerts w ++ fold_right (fun e acc => match e with Fx_alert m => m :: acc | _ => acc end) [] fx).

(** Mounting a fresh instance for a page. *)
Definition mount_page (p : page) (w : world) : world :=
  let g := S (gen w) in
  let w1 := mkWorld (session w) (location w) (I_static p) g (queue w) (alerts w) in
  match p with
  | FullPostPage id => emit g A_view (FullPost.fetch_effect id) (set_inst (I_view id FullPost.view_init) w1)
  | AddPostPage id =>
      let '(d, fx) := AddPost.mount id in emit g A_editor fx (set_inst (I_editor id d) w1)
  | _ => w1
  end.

(** A client-side navigation to [path] ([<Link>], [navigate], history). *)
Definition goto (path : jstr) (w : world) : world :=
  let w0 := mkWorld (session w) path (inst w) (gen w) (queue w) (alerts w) in
  match route path, inst w with
  | FullPostPage id, I_view old v =>
      let '(v', fx) := FullPost.params_change old id v in
      emit (gen w) A_view fx (set_inst (I_view id v') w0)
  | AddPostPage id, I_editor old d =>
      let '(d', fx) := AddPost.params_change old id d in
      emit (gen w) A_editor fx (set_inst (I_editor id d') w0)
  | p, _ => mount_page p w0
  end.

(** The editor's [<Navigate to="/" />] when its gate is closed. *)
Definition check_gate (w : world) : world :=
  match inst w with
  | I_editor id d =>
      match AddPost.render (session w) id d with
      | AddPost.Redirect to => goto to w
      | _ => w
      end
  | _ => w
  end.

Definition navigate (path : jstr) (w : world) : world := check_gate (goto path w).

Definition follow (tos : list jstr) (w : world) : world :=
  fold_left (fun w to => navigate to w) tos w.

(** A full page load of [path] with the token [localStorage] holds: the
    application starts afresh, issues "who am I" and mounts the page. *)
Definition boot (stored : option jstr) (path : jstr) : world :=
  let w0 := mkWorld (Auth.session_init stored) path (I_static NoMatch) 0 [] [] in
  let w1 := mount_page (route path) w0 in
  check_gate (emit 0 (fun k => k) [Fx_request A_authMe authMe_request] w1).

(** The user's actions. *)
Inductive event :=
| Navigate (path : jstr)
| Reload (path : jstr)
| EditorInput (ev : AddPost.event)
| Logout (confirmed : bool)
| Complete (n : nat) (c : completion).

Definition remove_nth {A} (n : nat) (l : list A) : list A := take n l ++ drop (S n) l.

(** A completion of the request at position [n] of the queue, of a shape
    the transport contract allows for that request. *)
Definition complete (n : nat) (c : completion) (w : world) : world :=
  match queue w !! n with
  | None => w
  | Some pd => if negb (fits (pd_req pd) c) then w else
      let w0 := mkWorld (session w) (location w) (inst w) (gen w) (remove_nth n (queue w)) (alerts w) in
      let live := bool_decide (pd_gen pd = gen w) in
      match pd_cont pd with
      | A_authMe => check_gate (set_session (authMe_done c (session w)) w0)
      | A_editor k =>
          match inst w with
          | I_editor id d =>
              let '(d', fx) := AddPost.resume k c d in
              let w1 := if live then set_inst (I_editor id d') w0 else w0 in
              follow (navigations_of fx) (emit (pd_gen pd) A_editor fx w1)
          | _ =>
              let fx := snd (AddPost.resume k c AddPost.draft_init) in
              follow (navigations_of fx) (emit (pd_gen pd) A_editor fx w0)
          end
      | A_view k =>
          match inst w with
          | I_view id v =>
              let '(v', fx) := FullPost.fetch_done c v in
              let w1 := if live then set_inst (I_view id v') w0 else w0 in
              emit (pd_gen pd) A_view fx w1
          | _ => emit (pd_gen pd) A_view (snd (FullPost.fetch_done c FullPost.view_init)) w0
          end
      end
  end.

(** One step of the application. *)
Definition step (ev : event) (w : world) : world :=
  match ev with
  | Navigate path => navigate path w
  | Reload path => boot (Auth.token (session w)) path
  | EditorInput e =>
      match inst w with
      | I_editor id d =>
          let '(d', fx) := AddPost.handle id e d in
          emit (gen w) A_editor fx (set_inst (I_editor id d') w)
      | _ => w
      end
  | Logout b => check_gate (set_session (Auth.onClickLogout b (session w)) w)
  | Complete n c => complete n c w
  end.

Definition run (evs : list event) (w : world) : world := fold_left (fun w e => step e w) evs w.

(** The id of the post the article view shows, if it shows one. *)
Definition shown (w : world) : option jstr :=
  match inst w with
  | I_view _ v =>
      match FullPost.render v with
      | Some (FullPost.Article c _) => Some (FullPost.c_id c)
      | _ => None
      end
  | _ => None
  end.

(** The worlds the application can reach from a page load. *)
Inductive reachable : world -> Prop :=
| reach_boot (t : option jstr) (path : jstr) : reachable (boot t path)
| reach_step (e : event) (w : world) : reachable w -> reachable (step e w).

(** The editor is mounted only while its gate is open. *)
Definition gate_inv (w : world) : Prop :=
  forall id d, inst w = I_editor id d -> Auth.canWrite (session w) = true.

(** Two posts of the example server. *)
Definition post_a : Post.t :=
  Post.mkPost ⟪"a"⟫ ⟪"First"⟫ ⟪"one"⟫ [⟪"x"⟫] None (Post.mkAuthor ⟪"Ann"⟫ None) ⟪"2024-01-01"⟫ 3%Z.
Definition post_b : Post.t :=
  Post.mkPost ⟪"b"⟫ ⟪"Second"⟫ ⟪"two"⟫ [⟪"y"⟫] None (Post.mkAuthor ⟪"Bob"⟫ None) ⟪"2024-01-02"⟫ 5%Z.

(** ** Lemmas *)

Lemma run_reachable (evs : list event) (w : world) : reachable w -> reachable (run evs w).
Proof.
  revert w. induction evs as [|e evs IH]; simpl; intros w Hw; [done|].
  apply IH. by constructor.
Qed.

Lemma drop_trailing_empty_id (segs : list jstr) (x : jstr) :
  x <> [] -> drop_trailing_empty (segs ++ [x]) = segs ++ [x].
Proof.
  intros Hx. induction segs as [|s segs IH]; simpl.
  - by rewrite bool_decide_false.
  - rewrite IH. by destruct segs.
Qed.

(** The segments of a path written as [/s1/s2/.../sn] with a non-empty last
    segment and no slash inside a segment. *)
Lemma segments_join (segs : list jstr) (x : jstr) :
  x <> [] -> Forall (fun s => ~ In slash s) (segs ++ [x]) ->
  segments (slash :: Str.join [slash] (segs ++ [x])) = segs ++ [x].
Proof.
  intros Hx Hs. unfold segments.
  assert (Str.split slash (slash :: Str.join [slash] (segs ++ [x])) = [] :: segs ++ [x]) as ->.
  { transitivity (Str.split slash (Str.join [slash] ([] :: segs ++ [x]))).
    - destruct segs; reflexivity.
    - apply Str.split_join. constructor; [simpl; tauto | exact Hs]. }
  by apply drop_trailing_empty_id.
Qed.

Lemma post_path_join (id : jstr) : post_path id = slash :: Str.join [slash] ([⟪"posts"⟫] ++ [id]).
Proof. reflexivity. Qed.

Lemma edit_path_join (id : jstr) :
  post_path id ++ ⟪"/edit"⟫ = slash :: Str.join [slash] ([⟪"posts"⟫; id] ++ [⟪"edit"⟫]).
Proof. unfold post_path. rewrite <- app_assoc. reflexivity. Qed.

Lemma seg_posts : seg_is ⟪"posts"⟫ ⟪"posts"⟫ = true.
Proof. reflexivity. Qed.

Lemma seg_edit : seg_is ⟪"edit"⟫ ⟪"edit"⟫ = true.
Proof. reflexivity. Qed.

Lemma lookup_last_pending (q : list pending) (pd : pending) :
  (q ++ [pd]) !! length q = Some pd /\ remove_nth (length q) (q ++ [pd]) = q.
Proof.
  split; [by apply list_lookup_middle|]. unfold remove_nth.
  rewrite take_app_length, drop_app_ge by lia. simpl. rewrite Nat.sub_succ_l, Nat.sub_diag by lia.
  by rewrite app_nil_r.
Qed.

Lemma route_post_path (id : jstr) :
  id <> [] -> ~ In slash id -> route (post_path id) = FullPostPage id.
Proof.
  intros Hid Hs. unfold route.
  rewrite post_path_join, (segments_join [⟪"posts"⟫] id); [|done|forall_js; exact Hs].
  simpl app. cbv iota beta. rewrite seg_posts, bool_decide_true by done. reflexivity.
Qed.

Lemma route_root : route ⟪"/"⟫ = Home.
Proof. reflexivity. Qed.

(** The gate invariant carries over to a world with the same session whose
    instance is an editor only if the old one was. *)
Lemma gate_inv_transfer (w w' : world) :
  gate_inv w -> session w' = session w ->
  (forall id d, inst w' = I_editor id d -> exists id0 d0, inst w = I_editor id0 d0) ->
  gate_inv w'.
Proof.
  intros Hw Hs Hi id d He. rewrite Hs. destruct (Hi id d He) as (id0 & d0 & H0). by eapply Hw.
Qed.

Lemma check_gate_inv (w : world) : gate_inv (check_gate w).
Proof.
  unfold check_gate. destruct (inst w) as [id d| |] eqn:Ei; [| intros ? ? ?; congruence ..].
  destruct (AddPost.render (session w) id d) eqn:R.
  - unfold AddPost.render in R. destruct (Auth.gate_redirects (session w)); [|discriminate].
    injection R as <-. intros ? ? He. unfold goto in He. rewrite route_root in He.
    simpl in He. destruct (inst w); discriminate.
  - intros id' d' He. rewrite Ei in He. injection He as -> ->.
    unfold AddPost.render in R. unfold Auth.canWrite.
    by destruct (Auth.gate_redirects (session w)).
Qed.

Lemma follow_inv (tos : list jstr) (w : world) : gate_inv w -> gate_inv (follow tos w).
Proof.
  revert w. induction tos as [|to tos IH]; simpl; intros w Hw; [done|].
  apply IH, check_gate_inv.
Qed.

Lemma boot_inv (t : option jstr) (path : jstr) : gate_inv (boot t path).
Proof. apply check_gate_inv. Qed.

Lemma navigate_inv (path : jstr) (w : world) : gate_inv (navigate path w).
Proof. apply check_gate_inv. Qed.

#[export] Hint Resolve check_gate_inv follow_inv boot_inv navigate_inv : blog.

(** The load and upload continuations never navigate. *)
Lemma resume_no_navigation (k : AddPost.cont) (c : completion) (d : AddPost.draft) :
  k = AddPost.K_load \/ k = AddPost.K_upload ->
  navigations_of (snd (AddPost.resume k c d)) = [].
Proof. intros [-> | ->]; by destruct c. Qed.

Lemma emit_inst {K} (g : nat) (wrap : K -> acont) (fx : list (effect K)) (w : world) :
  inst (emit g wrap fx w) = inst w /\ location (emit g wrap fx w) = location w /\
  session (emit g wrap fx w) = session w.
Proof. done. Qed.

(** Navigating to an article path lands on an article view. *)
Lemma navigate_to_article (path : jstr) (x : jstr) (w : world) :
  route path = FullPostPage x ->
  location (navigate path w) = path /\ exists v, inst (navigate path w) = I_view x v.
Proof.
  intros Hr. unfold navigate, goto. rewrite Hr.
  destruct (inst w) as [| id v |]; simpl; eauto.
Qed.

(** The submit of a mounted editor followed by the success of its
    request, delivered as the last pending request. *)
Lemma submit_complete (w : world) (mid : option jstr) (d : AddPost.draft)
    (c : completion) (tgt : jstr) :
  inst w = I_editor mid d -> tgt <> [] -> ~ In slash tgt ->
  (AddPost.isEditing mid = true /\ (c = Done_ok \/ exists p, c = Done_post p) /\ tgt = to_str mid \/
   AddPost.isEditing mid = false /\ exists p, c = Done_post p /\ tgt = Post._id p) ->
  let w2 := step (Complete (length (queue w)) c) (step (EditorInput AddPost.Submit) w) in
  location w2 = post_path tgt /\ inst w2 = I_view tgt FullPost.view_init /\
  queue w2 = queue w ++ [mkPending (gen w2) (A_view FullPost.K_fetch) (mkRequest GET (post_path tgt) NoBody)].
Proof.
  intros Hi Ht Hs Hcase.
  assert (Hnav : snd (AddPost.onSubmit_done (AddPost.isEditing mid) mid c
                        (AddPost.setLoading true d)) = [Fx_navigate (post_path tgt)]).
  { destruct Hcase as [(He & [-> | [p ->]] & ->) | (He & p & -> & ->)]; by rewrite He. }
  assert (Hfit : fits (if AddPost.isEditing mid
                       then mkRequest PATCH (post_path (to_str mid)) (JsonBody (AddPost.submit_fields d))
                       else mkRequest POST ⟪"/posts"⟫ (JsonBody (AddPost.submit_fields d))) c = true).
  { destruct Hcase as [(He & [-> | [p ->]] & _) | (He & p & -> & _)]; by rewrite He. }
  destruct (AddPost.onSubmit_done (AddPost.isEditing mid) mid c
              (AddPost.setLoading true d)) as [d2 fx] eqn:Er. simpl in Hnav. subst fx.
  pose proof (route_post_path tgt Ht Hs) as Hr.
  simpl. rewrite Hi. simpl.
  unfold complete. simpl. rewrite (proj1 (lookup_last_pending _ _)). simpl.
  rewrite Hfit. simpl. rewrite bool_decide_true by done. simpl. rewrite Er. simpl.
  unfold navigate, goto. simpl. rewrite Hr. simpl.
  rewrite (proj2 (lookup_last_pending _ _)). rewrite !app_nil_r. done.
Qed.

Lemma drop_trailing_empty_repeat (segs : list jstr) (x : jstr) (k : nat) :
  x <> [] -> drop_trailing_empty (segs ++ x :: repeat [] k) = segs ++ [x].
Proof.
  intros Hx. assert (Hr : drop_trailing_empty (repeat [] k) = []).
  { induction k as [|k IH]; simpl; [done|]. by rewrite IH. }
  induction segs as [|s segs IH]; simpl.
  - rewrite Hr. by rewrite bool_decide_false.
  - rewrite IH. by destruct segs.
Qed.

Lemma join_snoc (sep : jstr) (l : list jstr) (y : jstr) :
  l <> [] -> Str.join sep (l ++ [y]) = Str.join sep l ++ sep ++ y.
Proof.
  intros Hl. induction l as [|x l IH]; [done|]. destruct l as [|x' l]; [done|].
  specialize (IH ltac:(done)). cbn [app] in IH |- *.
  rewrite !Str.join_cons_cons, IH. by rewrite !app_assoc.
Qed.

Lemma join_repeat_empty (sep : Z) (l : list jstr) (k : nat) :
  l <> [] -> Str.join [sep] (l ++ repeat [] k) = Str.join [sep] l ++ repeat sep k.
Proof.
  revert l. induction k as [|k IH]; intros l Hl; simpl; [by rewrite !app_nil_r|].
  replace (l ++ [] :: repeat [] k) with ((l ++ [[]]) ++ repeat [] k) by by rewrite <- app_assoc.
  rewrite IH by (by destruct l). rewrite join_snoc by done. by rewrite <- app_assoc.
Qed.

(** A segment equal to a route literal up to case holds no slash. *)
Lemma lower_no_slash (a lit : jstr) : map ascii_lower a = lit -> ~ In slash lit -> ~ In slash a.
Proof. intros H Hn Hin. apply Hn. rewrite <- H. by apply (in_map ascii_lower) in Hin. Qed.

(** The segments of [/s1/.../sn] followed by any number of slashes. *)
Lemma segments_trailing (segs : list jstr) (x : jstr) (k : nat) :
  x <> [] -> Forall (fun s => ~ In slash s) (segs ++ [x]) ->
  segments (slash :: Str.join [slash] (segs ++ [x]) ++ repeat slash k) = segs ++ [x].
Proof.
  intros Hx Hs. unfold segments.
  assert (Str.split slash (slash :: Str.join [slash] (segs ++ [x]) ++ repeat slash k) =
          [] :: segs ++ x :: repeat [] k) as ->.
  { transitivity (Str.split slash (Str.join [slash] ([] :: (segs ++ [x]) ++ repeat [] k))).
    - f_equal. rewrite (app_comm_cons _ _ ([] : jstr)), join_repeat_empty by done. by destruct segs.
    - rewrite Str.split_join; [by rewrite <- app_assoc|]. constructor; [simpl; tauto|].
      apply Forall_app; split; [done|]. induction k; constructor; [simpl; tauto | done]. }
  by apply drop_trailing_empty_repeat.
Qed.

Lemma lookup_remove_nth_lt {A} (l : list A) (i j : nat) :
  (i < j)%nat -> remove_nth j l !! i = l !! i.
Proof.
  intros Hij. unfold remove_nth. destruct (decide (j <= length l)%nat).
  - rewrite lookup_app_l by (rewrite length_take; lia). by apply lookup_take_lt.
  - rewrite drop_ge by lia. rewrite app_nil_r, take_ge by lia. done.
Qed.

(** ** Properties *)

(** C21. The paths the code builds reach the pages it means: for an
    identifier that is non-empty and holds no slash, [`/posts/${id}`]
    routes to the article view of [id] and [`/posts/${id}/edit`] to the
    editor in edit mode for [id]. *)
Theorem route_post_paths (id : jstr) :
  id <> [] -> ~ In slash id ->
  route (post_path id) = FullPostPage id /\
  route (post_path id ++ ⟪"/edit"⟫) = AddPostPage (Some id).
Proof.
  intros Hid Hs. split; [by apply route_post_path|]. unfold route.
  rewrite edit_path_join, (segments_join [⟪"posts"⟫; id] ⟪"edit"⟫); [|done|forall_js; exact Hs].
  simpl app. cbv iota beta. rewrite seg_posts, seg_edit, bool_decide_true by done. reflexivity.
Qed.

Lemma route_post_paths_witness :
  route (post_path ⟪"65a1"⟫) = FullPostPage ⟪"65a1"⟫ /\
  route (post_path ⟪"65a1"⟫ ++ ⟪"/edit"⟫) = AddPostPage (Some ⟪"65a1"⟫).
Proof. apply route_post_paths; [discriminate | apply not_In_Z; reflexivity]. Defined.

(** C22. Submit, then success, lands on the article: from a mounted editor,
    a submit whose request succeeds (any success in edit mode, a Post in
    create mode) leaves the application at [/posts/<id>] for the post
    written, with a fresh article view mounted and its fetch of
    [/posts/<id>] the only new pending request. *)
Theorem submit_lands_on_view (w : world) (mid : option jstr) (d : AddPost.draft)
    (c : completion) (tgt : jstr) :
  inst w = I_editor mid d -> tgt <> [] -> ~ In slash tgt ->
  (AddPost.isEditing mid = true /\ (c = Done_ok \/ exists p, c = Done_post p) /\ tgt = to_str mid \/
   AddPost.isEditing mid = false /\ exists p, c = Done_post p /\ tgt = Post._id p) ->
  let w2 := step (Complete (length (queue w)) c) (step (EditorInput AddPost.Submit) w) in
  location w2 = post_path tgt /\ inst w2 = I_view tgt FullPost.view_init /\
  queue w2 = queue w ++ [mkPending (gen w2) (A_view FullPost.K_fetch) (mkRequest GET (post_path tgt) NoBody)].
Proof. apply submit_complete. Qed.

Lemma submit_lands_on_view_witness :
  let w := run [Complete 0 (Done_post AddPost.sample_post)] (boot (Some ⟪"tok"⟫) ⟪"/posts/65a1/edit"⟫) in
  let w2 := step (Complete (length (queue w)) Done_ok) (step (EditorInput AddPost.Submit) w) in
  location w2 = post_path ⟪"65a1"⟫ /\ inst w2 = I_view ⟪"65a1"⟫ FullPost.view_init /\
  queue w2 = queue w ++ [mkPending (gen w2) (A_view FullPost.K_fetch)
                           (mkRequest GET (post_path ⟪"65a1"⟫) NoBody)].
Proof.
  apply (submit_lands_on_view _ (Some ⟪"65a1"⟫) (AddPost.setImageUrl (Some ⟪"/uploads/foo.png"⟫)
    (AddPost.setTags ⟪"x,y"⟫ (AddPost.setText ⟪"World"⟫ (AddPost.setTitle ⟪"Hello"⟫ AddPost.draft_init)))));
    [reflexivity | discriminate | apply not_In_Z; reflexivity |].
  left. split; [reflexivity|]. split; [left; reflexivity | reflexivity].
Defined.

(** C23. The write gate holds in every reachable world: whatever the
    sequence of navigations, reloads, form actions, logouts and
    completions, the editor is mounted only while [canWrite] holds; a
    session that loses it (logout, a failed "who am I" without a token)
    is sent to [/] at once. *)
Theorem gate_invariant (w : world) : reachable w -> gate_inv w.
Proof.
  induction 1 as [t path|e w Hr IH]; [apply boot_inv|].
  destruct e as [path|path|ev|b|n c]; unfold step; auto with blog.
  - destruct (inst w) as [id d| |] eqn:Ei; [|done|done].
    destruct (AddPost.handle id ev d) as [d' fx].
    apply (gate_inv_transfer w); [done|done|]. intros. eauto.
  - unfold complete. destruct (queue w !! n) as [pd|]; [|done].
    destruct (negb (fits (pd_req pd) c)); [done|].
    destruct (pd_cont pd); auto with blog.
    + destruct (inst w) as [id d| |] eqn:Ei.
      * destruct (AddPost.resume k c d) as [d' fx]. apply follow_inv.
        apply (gate_inv_transfer w); [done| by case_bool_decide |]. intros. case_bool_decide; simpl in *; eauto.
      * apply follow_inv. apply (gate_inv_transfer w); [done|done|]. simpl. intros; congruence.
      * apply follow_inv. apply (gate_inv_transfer w); [done|done|]. simpl. intros; congruence.
    + destruct (inst w) as [id d| id v |] eqn:Ei.
      * apply (gate_inv_transfer w); [done|done|]. simpl. intros; eauto.
      * destruct (FullPost.fetch_done c v) as [v' fx].
        apply (gate_inv_transfer w); [done|by case_bool_decide|].
        simpl. intros. case_bool_decide; simpl in *; congruence.
      * apply (gate_inv_transfer w); [done|done|]. simpl. intros; congruence.
Qed.

Lemma gate_invariant_witness :
  reachable (run [Navigate ⟪"/add-post"⟫] (boot None ⟪"/"⟫)) /\
  gate_inv (run [Navigate ⟪"/add-post"⟫] (boot None ⟪"/"⟫)).
Proof.
  assert (H : reachable (run [Navigate ⟪"/add-post"⟫] (boot None ⟪"/"⟫)))
    by (apply run_reachable; constructor).
  split; [exact H | exact (gate_invariant _ H)].
Defined.

(** C24. Re-entry of the article view keeps the old article: navigating
    from one article to another keeps the mounted view and its state, so
    until the new fetch completes the view at [/posts/<b>] shows what it
    showed before (the previous article), while the fetch of [b] is
    issued. *)
Theorem view_reentry_keeps_old_article (w : world) (a b : jstr) (v : FullPost.view) :
  inst w = I_view a v -> b <> [] -> ~ In slash b -> a <> b ->
  let w' := step (Navigate (post_path b)) w in
  route (location w') = FullPostPage b /\ inst w' = I_view b v /\ shown w' = shown w /\
  queue w' = queue w ++ [mkPending (gen w) (A_view FullPost.K_fetch) (mkRequest GET (post_path b) NoBody)].
Proof.
  intros Hi Hb Hs Hab. pose proof (route_post_path b Hb Hs) as Hr.
  unfold step, navigate, goto. rewrite Hr, Hi. simpl.
  rewrite bool_decide_false by congruence. simpl.
  unfold shown. rewrite Hi. by rewrite Hr.
Qed.

Lemma view_reentry_keeps_old_article_witness :
  let w := run [Complete 0 (Done_post post_a)] (boot None ⟪"/posts/a"⟫) in
  let w' := step (Navigate (post_path ⟪"b"⟫)) w in
  route (location w') = FullPostPage ⟪"b"⟫ /\
  inst w' = I_view ⟪"b"⟫ (FullPost.mkView (Some post_a) false) /\ shown w' = shown w /\
  queue w' = queue w ++ [mkPending (gen w) (A_view FullPost.K_fetch)
                           (mkRequest GET (post_path ⟪"b"⟫) NoBody)].
Proof.
  apply (view_reentry_keeps_old_article _ ⟪"a"⟫ _ (FullPost.mkView (Some post_a) false));
    [reflexivity | discriminate | apply not_In_Z; reflexivity | discriminate].
Defined.

(** C25. Out-of-order completions are applied: when the view at
    [/posts/<b>] has two fetches of its own pending, the older one for
    another article [a] and the newer one for [b], and the fetch of [b]
    completes first with post [b] and the fetch of [a] then completes
    with post [a], the view at [/posts/<b>] ends up showing article [a]:
    the late completion is not compared with the current target. *)
Theorem out_of_order_fetch_shows_wrong_article (w : world) (a b : jstr) (v : FullPost.view)
    (i j : nat) (pa pb : Post.t) :
  inst w = I_view b v -> route (location w) = FullPostPage b -> a <> b -> (i < j)%nat ->
  queue w !! i = Some (mkPending (gen w) (A_view FullPost.K_fetch) (mkRequest GET (post_path a) NoBody)) ->
  queue w !! j = Some (mkPending (gen w) (A_view FullPost.K_fetch) (mkRequest GET (post_path b) NoBody)) ->
  Post._id pa = a -> Post._id pb = b ->
  let w2 := step (Complete i (Done_post pa)) (step (Complete j (Done_post pb)) w) in
  route (location w2) = FullPostPage b /\ shown w2 = Some a /\
  inst w2 = I_view b (FullPost.mkView (Some pa) false).
Proof.
  intros Hi Hr Hab Hij Hqa Hqb Ha Hb. cbv zeta.
  assert (Hfit : forall x p, fits (mkRequest GET (post_path x) NoBody) (Done_post p) = true)
    by (intros; apply bool_decide_true; unfold post_path; discriminate).
  remember (step (Complete j (Done_post pb)) w) as w1 eqn:E1.
  assert (Hw1 : inst w1 = I_view b (FullPost.mkView (Some pb) false) /\
                queue w1 = remove_nth j (queue w) /\ gen w1 = gen w /\ location w1 = location w).
  { subst w1. unfold step, complete. rewrite Hqb. cbn [pd_req pd_gen pd_cont].
    rewrite Hfit. cbn [negb]. rewrite bool_decide_true by done. rewrite Hi. simpl. rewrite app_nil_r. by repeat split. }
  destruct Hw1 as (Hi1 & Hq1 & Hg1 & Hl1).
  unfold step, complete. rewrite Hq1, lookup_remove_nth_lt, Hqa by done. cbn [pd_req pd_gen pd_cont].
  rewrite Hfit. cbn [negb]. rewrite Hg1, bool_decide_true by done. rewrite Hi1.
  unfold shown. simpl. rewrite Hl1, Ha. by split.
Qed.

Lemma out_of_order_fetch_shows_wrong_article_witness :
  let w := run [Navigate (post_path ⟪"b"⟫)] (boot None ⟪"/posts/a"⟫) in
  let w2 := step (Complete 0 (Done_post post_a)) (step (Complete 2 (Done_post post_b)) w) in
  route (location w2) = FullPostPage ⟪"b"⟫ /\ shown w2 = Some ⟪"a"⟫ /\
  inst w2 = I_view ⟪"b"⟫ (FullPost.mkView (Some post_a) false).
Proof.
  apply (out_of_order_fetch_shows_wrong_article _ ⟪"a"⟫ ⟪"b"⟫ FullPost.view_init 0 2 post_a post_b);
    [reflexivity | reflexivity | discriminate | lia | reflexivity | reflexivity | reflexivity | reflexivity].
Defined.

(** C26. The editor keeps its draft across routes: moving from
    [/posts/<x>/edit] to [/add-post] keeps the mounted editor with the
    draft of post [x] (no effect runs, since [id] became [undefined]), so
    the create form shows that post's fields and a create would post
    them. *)
Theorem create_after_edit_keeps_draft (w : world) (x : jstr) (d : AddPost.draft) :
  inst w = I_editor (Some x) d -> Auth.canWrite (session w) = true ->
  let w' := step (Navigate ⟪"/add-post"⟫) w in
  inst w' = I_editor None d /\ queue w' = queue w /\
  AddPost.render (session w') None d =
    AddPost.Form (if truthy (AddPost.imageUrl d) then Some (host ++ to_str (AddPost.imageUrl d)) else None)
      (AddPost.title d) (AddPost.stringTags d) (AddPost.text d) ⟪"Create"⟫.
Proof.
  intros Hi Hw. unfold Auth.canWrite in Hw. apply negb_true_iff in Hw.
  unfold step, navigate, goto. rewrite Hi. simpl.
  try (rewrite bool_decide_false by discriminate); simpl. rewrite ?app_nil_r.
  unfold check_gate. simpl. unfold AddPost.render. rewrite Hw. simpl. rewrite ?app_nil_r, ?Hw. done.
Qed.

Lemma create_after_edit_keeps_draft_witness :
  let w := run [Complete 0 (Done_post post_a)] (boot (Some ⟪"tok"⟫) ⟪"/posts/a/edit"⟫) in
  let d := fst (AddPost.load_done (Done_post post_a) AddPost.draft_init) in
  AddPost.title d = ⟪"First"⟫ /\
  (inst (step (Navigate ⟪"/add-post"⟫) w) = I_editor None d /\
   queue (step (Navigate ⟪"/add-post"⟫) w) = queue w /\
   AddPost.render (session (step (Navigate ⟪"/add-post"⟫) w)) None d =
     AddPost.Form (if truthy (AddPost.imageUrl d) then Some (host ++ to_str (AddPost.imageUrl d)) else None)
       (AddPost.title d) (AddPost.stringTags d) (AddPost.text d) ⟪"Create"⟫).
Proof.
  split; [reflexivity|].
  apply (create_after_edit_keeps_draft _ ⟪"a"⟫); reflexivity.
Defined.

(** C27. A late load overwrites the user's edits: when the fetch of the
    edited post completes, its fields replace the draft's title, text, tags
    and image whatever the user typed since the editor was mounted. *)
Theorem late_load_overwrites_edits (w : world) (n : nat) (id : option jstr)
    (d : AddPost.draft) (rq : request) (p : Post.t) :
  inst w = I_editor id d ->
  queue w !! n = Some (mkPending (gen w) (A_editor AddPost.K_load) rq) ->
  fits rq (Done_post p) = true ->
  exists d', inst (step (Complete n (Done_post p)) w) = I_editor id d' /\
    AddPost.title d' = Post.title p /\ AddPost.text d' = Post.text p /\
    AddPost.stringTags d' = Tags.tags_to_input (Post.tags p) /\
    AddPost.imageUrl d' = Post.imageUrl p /\ AddPost.isLoading d' = AddPost.isLoading d.
Proof.
  intros Hi Hq Hf. unfold step, complete. rewrite Hq. cbn [pd_req pd_gen pd_cont]. rewrite Hf. simpl. rewrite Hi.
  rewrite bool_decide_true by done. simpl. eexists. split; [reflexivity|]. done.
Qed.

Lemma late_load_overwrites_edits_witness :
  let w := run [EditorInput (AddPost.ChangeTitle ⟪"My own title"⟫)]
               (boot (Some ⟪"tok"⟫) ⟪"/posts/a/edit"⟫) in
  exists d', inst (step (Complete 0 (Done_post post_a)) w) = I_editor (Some ⟪"a"⟫) d' /\
    AddPost.title d' = Post.title post_a /\ AddPost.text d' = Post.text post_a /\
    AddPost.stringTags d' = Tags.tags_to_input (Post.tags post_a) /\
    AddPost.imageUrl d' = Post.imageUrl post_a /\
    AddPost.isLoading d' = AddPost.isLoading (AddPost.setTitle ⟪"My own title"⟫ AddPost.draft_init).
Proof.
  apply (late_load_overwrites_edits _ 0 _ (AddPost.setTitle ⟪"My own title"⟫ AddPost.draft_init)
           (mkRequest GET (post_path ⟪"a"⟫) NoBody)); reflexivity.
Defined.

(** C28. A completion for an unmounted instance changes nothing on screen:
    a fetch, a load or an upload issued by an instance that has since been
    unmounted leaves the mounted page, the location and the session as
    they were (only its alert, on failure, is still shown). *)
Theorem stale_completion_leaves_page (w : world) (n : nat) (pd : pending) (c : completion) :
  queue w !! n = Some pd -> pd_gen pd <> gen w ->
  pd_cont pd = A_view FullPost.K_fetch \/ pd_cont pd = A_editor AddPost.K_load \/
  pd_cont pd = A_editor AddPost.K_upload ->
  inst (step (Complete n c) w) = inst w /\ location (step (Complete n c) w) = location w /\
  session (step (Complete n c) w) = session w.
Proof.
  intros Hq Hg Hk. unfold step, complete. rewrite Hq.
  destruct (negb (fits (pd_req pd) c)); [done|]. rewrite bool_decide_false by done.
  destruct Hk as [Hk | [Hk | Hk]]; rewrite Hk.
  - destruct (inst w) as [| id v |]; [done| |done]. by destruct (FullPost.fetch_done c v).
  - destruct (inst w) as [id d | |]; [|rewrite resume_no_navigation by auto; done ..].
    pose proof (resume_no_navigation AddPost.K_load c d ltac:(auto)) as Hn.
    destruct (AddPost.resume AddPost.K_load c d); simpl in Hn; by rewrite Hn.
  - destruct (inst w) as [id d | |]; [|rewrite resume_no_navigation by auto; done ..].
    pose proof (resume_no_navigation AddPost.K_upload c d ltac:(auto)) as Hn.
    destruct (AddPost.resume AddPost.K_upload c d); simpl in Hn; by rewrite Hn.
Qed.

Lemma stale_completion_leaves_page_witness :
  let w := run [Navigate ⟪"/"⟫] (boot None ⟪"/posts/a"⟫) in
  inst (step (Complete 0 (Done_post post_a)) w) = inst w /\
  location (step (Complete 0 (Done_post post_a)) w) = location w /\
  session (step (Complete 0 (Done_post post_a)) w) = session w.
Proof.
  apply (stale_completion_leaves_page _ 0
           (mkPending 1 (A_view FullPost.K_fetch) (mkRequest GET (post_path ⟪"a"⟫) NoBody)));
    [reflexivity | discriminate | left; reflexivity].
Defined.

(** C29. A submit outlives its editor: when the user leaves the editor
    after saving and the update then succeeds, the application still
    navigates to the article it saved, away from the page the user went
    to. *)
Theorem stale_submit_navigates (w : world) (n g : nat) (x : jstr) (rq : request) (c : completion) :
  queue w !! n = Some (mkPending g (A_editor (AddPost.K_submit true (Some x))) rq) ->
  g <> gen w -> x <> [] -> ~ In slash x -> c <> Failed -> fits rq c = true ->
  location (step (Complete n c) w) = post_path x /\
  exists v, inst (step (Complete n c) w) = I_view x v.
Proof.
  intros Hq Hg Hx Hs Hc Hf. pose proof (route_post_path x Hx Hs) as Hr.
  unfold step, complete. rewrite Hq. cbn [pd_req pd_gen pd_cont]. rewrite Hf. simpl. rewrite bool_decide_false by done. simpl.
  assert (Hnav : forall d, AddPost.onSubmit_done true (Some x) c d =
                           (d, [Fx_navigate (post_path x)])) by (intros; by destruct c).
  destruct (inst w) as [id d | |]; rewrite ?Hnav; cbn [follow fold_left navigations_of fold_right snd];
    apply navigate_to_article, Hr.
Qed.

Lemma stale_submit_navigates_witness :
  let w := run [Complete 0 (Done_post post_a); EditorInput AddPost.Submit; Navigate ⟪"/"⟫]
               (boot (Some ⟪"tok"⟫) ⟪"/posts/a/edit"⟫) in
  location (step (Complete 1 Done_ok) w) = post_path ⟪"a"⟫ /\
  exists v, inst (step (Complete 1 Done_ok) w) = I_view ⟪"a"⟫ v.
Proof.
  apply (stale_submit_navigates _ 1 1 ⟪"a"⟫
           (mkRequest PATCH (post_path ⟪"a"⟫)
              (JsonBody (AddPost.submit_fields (fst (AddPost.load_done (Done_post post_a) AddPost.draft_init))))));
    [reflexivity | discriminate | discriminate | apply not_In_Z; reflexivity | discriminate | reflexivity].
Defined.

(** C30. Logging out from the editor leaves it at once: a confirmed
    logout while the editor is mounted ends at [/] with the home page
    mounted and the write gate closed. *)
Theorem logout_leaves_editor (w : world) (id : option jstr) (d : AddPost.draft) :
  inst w = I_editor id d ->
  location (step (Logout true) w) = ⟪"/"⟫ /\ inst (step (Logout true) w) = I_static Home /\
  Auth.canWrite (session (step (Logout true) w)) = false.
Proof. intros Hi. unfold step, check_gate. simpl. by rewrite Hi. Qed.

Lemma logout_leaves_editor_witness :
  let w := boot (Some ⟪"tok"⟫) ⟪"/add-post"⟫ in
  location (step (Logout true) w) = ⟪"/"⟫ /\ inst (step (Logout true) w) = I_static Home /\
  Auth.canWrite (session (step (Logout true) w)) = false.
Proof. apply (logout_leaves_editor _ None AddPost.draft_init). reflexivity. Defined.

(** C35. Routing ignores the case of the static segments and trailing
    slashes: [/<a>/<id>] and [/<a>/<id>/<e>], where [a] is "posts" and [e]
    is "edit" in any mix of upper and lower case, followed by any number
    of slashes, reach the article view and the editor for [id], the
    identifier keeping its own case. *)
Theorem route_ignores_case_and_trailing_slashes (a e id : jstr) (k : nat) :
  map ascii_lower a = ⟪"posts"⟫ -> map ascii_lower e = ⟪"edit"⟫ -> id <> [] -> ~ In slash id ->
  route (slash :: a ++ slash :: id ++ repeat slash k) = FullPostPage id /\
  route (slash :: a ++ slash :: id ++ slash :: e ++ repeat slash k) = AddPostPage (Some id).
Proof.
  intros Ha He Hid Hs.
  assert (Hna : ~ In slash a) by (apply (lower_no_slash a ⟪"posts"⟫); [done | apply not_In_Z; reflexivity]).
  assert (Hne : ~ In slash e) by (apply (lower_no_slash e ⟪"edit"⟫); [done | apply not_In_Z; reflexivity]).
  assert (Ea : e <> []) by (intros ->; discriminate He).
  split; unfold route.
  - replace (slash :: a ++ slash :: id ++ repeat slash k)
      with (slash :: Str.join [slash] ([a] ++ [id]) ++ repeat slash k)
      by (simpl; repeat (rewrite <- app_assoc; simpl); reflexivity).
    rewrite (segments_trailing [a] id k) by (repeat constructor; done).
    simpl app. cbv iota beta. unfold seg_is.
    by rewrite (bool_decide_true (map ascii_lower a = _)), (bool_decide_true (id <> [])).
  - replace (slash :: a ++ slash :: id ++ slash :: e ++ repeat slash k)
      with (slash :: Str.join [slash] ([a; id] ++ [e]) ++ repeat slash k)
      by (simpl; repeat (rewrite <- app_assoc; simpl); reflexivity).
    rewrite (segments_trailing [a; id] e k) by (repeat constructor; done).
    simpl app. cbv iota beta. unfold seg_is.
    by rewrite (bool_decide_true (map ascii_lower a = _)), (bool_decide_true (id <> [])),
      (bool_decide_true (map ascii_lower e = _)).
Qed.

Lemma route_ignores_case_and_trailing_slashes_witness :
  route (slash :: ⟪"POSTS"⟫ ++ slash :: ⟪"65a1"⟫ ++ repeat slash 2) = FullPostPage ⟪"65a1"⟫ /\
  route (slash :: ⟪"POSTS"⟫ ++ slash :: ⟪"65a1"⟫ ++ slash :: ⟪"Edit"⟫ ++ repeat slash 2) =
    AddPostPage (Some ⟪"65a1"⟫).
Proof.
  apply route_ignores_case_and_trailing_slashes;
    [reflexivity | reflexivity | discriminate | apply not_In_Z; reflexivity].
Defined.

End App.
