(* ===== verification/Network.v ===== *)
(** The pending requests of the application ([App.queue]) as a typed,
    terminating system.

    Typing: every pending request carries the continuation that was
    created with it ([typed]: a fetch or a load waits on [GET /posts/<id>],
    an upload on a [POST /upload] form, a submit on the [PATCH] or [POST]
    its mode chose, "who am I" on [GET /auth/me]), and was issued by an
    instance no younger than the mounted one.  Through the transport
    contract [fits], a continuation therefore only ever receives the reply
    shapes it [expects].

    Termination: a completion may issue new requests (a successful submit
    navigates, and the page it lands on fetches), but never more than it
    consumes when a submit weighs two and any other request one ([load]).
    So whatever order the network completes requests in ([sched]), and
    whatever a server that keeps the contract replies ([srv], with a state
    of its own, as the [Backend]s of [Server.v]), delivering completions
    empties the queue within [load] steps ([drain]). *)

From S2P Require Import Prelude Transport Auth Editor View App.

Module Network.
Import Transport App.

(** The request a continuation was created with. *)
Definition typed (k : acont) (rq : request) : Prop :=
  match k with
  | A_authMe => rq = authMe_request
  | A_view FullPost.K_fetch => exists id, rq = mkRequest GET (post_path id) NoBody
  | A_editor AddPost.K_load => exists id, rq = mkRequest GET (post_path id) NoBody
  | A_editor AddPost.K_upload => exists f, rq = mkRequest POST ⟪"/upload"⟫ (FormBody ⟪"image"⟫ f)
  | A_editor (AddPost.K_submit true id) =>
      exists fl, rq = mkRequest PATCH (post_path (to_str id)) (JsonBody fl)
  | A_editor (AddPost.K_submit false _) => exists fl, rq = mkRequest POST ⟪"/posts"⟫ (JsonBody fl)
  end.

(** The reply shapes a continuation is written for: a Post for the fetch,
    the load and the create; any success for the update; [{url}] for the
    upload; the user for "who am I"; and a failure for all. *)
Definition expects (k : acont) (c : completion) : bool :=
  match k, c with
  | _, Failed => true
  | A_authMe, Done_auth _ => true
  | (A_view _ | A_editor AddPost.K_load | A_editor (AddPost.K_submit false _)), Done_post _ => true
  | A_editor AddPost.K_upload, Done_upload _ => true
  | A_editor (AddPost.K_submit true _), (Done_ok | Done_post _) => true
  | _, _ => false
  end.

(** The requests among a page's effects are typed for their continuations. *)
Definition fx_typed {K} (wrap : K -> acont) (fx : list (effect K)) : Prop :=
  Forall (fun '(k, rq) => typed (wrap k) rq) (requests_of fx).

(** The invariant of the queue. *)
Definition queue_ok (w : world) : Prop :=
  Forall (fun pd => typed (pd_cont pd) (pd_req pd) /\ (pd_gen pd <= gen w)%nat) (queue w).

(** The weight of a pending request: a submit may cause a fetch. *)
Definition weight (k : acont) : nat :=
  match k with
  | A_editor (AddPost.K_submit _ _) => 2
  | _ => 1
  end.

Definition load (q : list pending) : nat := sum_list_with (fun pd => weight (pd_cont pd)) q.

(** Delivering completions: [sched] picks the request that completes next
    and the server [srv], in state [st], serves it; at most [fuel]
    completions. *)
Fixpoint drain {St} (srv : request -> St -> St * completion) (sched : world -> nat)
    (fuel : nat) (w : world) (st : St) : world * St :=
  match fuel with
  | O => (w, st)
  | S fuel' =>
      match queue w !! sched w with
      | Some pd =>
          let '(st', c) := srv (pd_req pd) st in
          drain srv sched fuel' (step (Complete (sched w) c) w) st'
      | None => (w, st)
      end
  end.

(** A stateless server that keeps the contract and answers every fetch,
    create and update with the post [p]. *)
Definition replies (p : Post.t) (rq : request) : completion :=
  match rq_method rq, rq_body rq with
  | GET, _ => if bool_decide (rq_path rq = ⟪"/auth/me"⟫) then Done_auth ⟪"me"⟫ else Done_post p
  | POST, JsonBody _ => Done_post p
  | POST, FormBody _ _ => Done_upload (Some ⟪"/uploads/a.png"⟫)
  | POST, NoBody => Failed
  | PATCH, _ => Done_ok
  end.

(** ** Typing of the queue *)

Lemma Forall_remove_nth {A} (P : A -> Prop) (n : nat) (l : list A) :
  Forall P l -> Forall P (remove_nth n l).
Proof. intros H. unfold remove_nth. apply Forall_app; split; [by apply Forall_take | by apply Forall_drop]. Qed.

Lemma queue_ok_weaken (w w' : world) :
  queue w' = queue w -> (gen w <= gen w')%nat -> queue_ok w -> queue_ok w'.
Proof. unfold queue_ok. intros -> Hg H. eapply Forall_impl; [exact H|]. intros pd [? ?]. split; [done | lia]. Qed.

Lemma emit_ok {K} (g : nat) (wrap : K -> acont) (fx : list (effect K)) (w : world) :
  queue_ok w -> (g <= gen w)%nat -> fx_typed wrap fx -> queue_ok (emit g wrap fx w).
Proof.
  unfold queue_ok, fx_typed. intros Hq Hg Hfx. simpl. apply Forall_app; split; [done|].
  apply Forall_fmap. eapply Forall_impl; [exact Hfx|]. intros [k rq]. simpl. done.
Qed.

Lemma no_requests_typed {K} (wrap : K -> acont) (fx : list (effect K)) :
  requests_of fx = [] -> fx_typed wrap fx.
Proof. unfold fx_typed. intros ->. constructor. Qed.

Lemma handle_typed (id : option jstr) (e : AddPost.event) (d : AddPost.draft) :
  fx_typed A_editor (snd (AddPost.handle id e d)).
Proof.
  unfold fx_typed. destruct e; simpl; try constructor; try done; [eexists; reflexivity|].
  unfold AddPost.isEditing. destruct (truthy id); simpl; eexists; reflexivity.
Qed.

Lemma resume_no_requests (k : AddPost.cont) (c : completion) (d : AddPost.draft) :
  requests_of (snd (AddPost.resume k c d)) = [].
Proof. by destruct k, c. Qed.

Lemma load_effect_typed (id : option jstr) : fx_typed A_editor (AddPost.load_effect id).
Proof. unfold fx_typed, AddPost.load_effect. destruct (truthy id); repeat constructor; eexists; reflexivity. Qed.

Lemma fetch_effect_typed (id : jstr) : fx_typed A_view (FullPost.fetch_effect id).
Proof. repeat constructor. eexists; reflexivity. Qed.

Lemma fetch_done_no_requests (c : completion) (v : FullPost.view) :
  requests_of (snd (FullPost.fetch_done c v)) = [].
Proof. by destruct c. Qed.

#[export] Hint Resolve handle_typed load_effect_typed fetch_effect_typed no_requests_typed
  resume_no_requests fetch_done_no_requests : blog.

Lemma mount_page_ok (p : page) (w : world) : queue_ok w -> queue_ok (mount_page p w).
Proof.
  intros Hw. assert (Hw1 : forall i, queue_ok (mkWorld (session w) (location w) i (S (gen w)) (queue w) (alerts w)))
    by (intros; apply (queue_ok_weaken w); simpl; auto).
  unfold mount_page. destruct p; simpl; auto; (apply emit_ok; [apply Hw1 | simpl; lia | auto with blog]).
Qed.

Lemma goto_ok (path : jstr) (w : world) : queue_ok w -> queue_ok (goto path w).
Proof.
  intros Hw. assert (Hw0 : queue_ok (mkWorld (session w) path (inst w) (gen w) (queue w) (alerts w)))
    by (apply (queue_ok_weaken w); simpl; auto).
  unfold goto. destruct (route path), (inst w); try (apply mount_page_ok; exact Hw0).
  - unfold FullPost.params_change. apply emit_ok; [done|done|]. case_bool_decide; auto with blog.
  - unfold AddPost.params_change. apply emit_ok; [done|done|]. case_bool_decide; auto with blog.
Qed.

Lemma check_gate_ok (w : world) : queue_ok w -> queue_ok (check_gate w).
Proof.
  intros Hw. unfold check_gate. destruct (inst w); [|done|done].
  destruct (AddPost.render _ _ _); [by apply goto_ok | done].
Qed.

Lemma navigate_ok (path : jstr) (w : world) : queue_ok w -> queue_ok (navigate path w).
Proof. intros. by apply check_gate_ok, goto_ok. Qed.

Lemma follow_ok (tos : list jstr) (w : world) : queue_ok w -> queue_ok (follow tos w).
Proof. revert w. induction tos; simpl; auto using navigate_ok. Qed.

Lemma boot_ok (t : option jstr) (path : jstr) : queue_ok (boot t path).
Proof.
  unfold boot. apply check_gate_ok, emit_ok; [apply mount_page_ok; constructor | lia |].
  repeat constructor.
Qed.

#[export] Hint Resolve mount_page_ok goto_ok check_gate_ok navigate_ok follow_ok boot_ok : blog.

Lemma complete_ok (n : nat) (c : completion) (w : world) : queue_ok w -> queue_ok (complete n c w).
Proof.
  intros Hw. unfold complete. destruct (queue w !! n) as [pd|] eqn:Hn; [|done].
  destruct (negb (fits (pd_req pd) c)); [done|].
  assert (Hg : (pd_gen pd <= gen w)%nat) by (apply Forall_lookup_1 with (i := n) (x := pd) in Hw; tauto).
  set (w0 := mkWorld (session w) (location w) (inst w) (gen w) (remove_nth n (queue w)) (alerts w)).
  assert (H0 : queue_ok w0) by (by apply Forall_remove_nth).
  assert (Hs : forall i, queue_ok (set_inst i w0)) by done.
  destruct (pd_cont pd) as [k|k|]; [| |by apply check_gate_ok].
  - destruct (inst w) as [id d| |].
    + destruct (AddPost.resume k c d) as [d' fx] eqn:E.
      apply follow_ok, emit_ok; [by case_bool_decide | case_bool_decide; simpl; lia |].
      apply no_requests_typed. pose proof (resume_no_requests k c d) as R. by rewrite E in R.
    + apply follow_ok, emit_ok; auto with blog.
    + apply follow_ok, emit_ok; auto with blog.
  - destruct (inst w) as [| id v |].
    + apply emit_ok; auto with blog.
    + destruct (FullPost.fetch_done c v) as [v' fx] eqn:E.
      apply emit_ok; [by case_bool_decide | case_bool_decide; simpl; lia |].
      apply no_requests_typed. pose proof (fetch_done_no_requests c v) as R. by rewrite E in R.
    + apply emit_ok; auto with blog.
Qed.

Lemma step_ok (e : event) (w : world) : queue_ok w -> queue_ok (step e w).
Proof.
  intros Hw. destruct e; simpl; auto using complete_ok with blog.
  destruct (inst w) as [id d| |]; [|done|done].
  destruct (AddPost.handle id ev d) as [d' fx] eqn:E.
  apply emit_ok; [done|done|]. pose proof (handle_typed id ev d) as T. by rewrite E in T.
Qed.

(** A typed request admits from the transport only the replies its
    continuation expects. *)
Lemma typed_fits_expects (k : acont) (rq : request) (c : completion) :
  typed k rq -> fits rq c = true -> expects k c = true.
Proof.
  destruct k as [[|[] id|]|[]|]; simpl;
    [intros [f ->] | intros [fl ->] | intros [fl ->] | intros [id ->] | intros [id ->] | intros ->];
    destruct c; simpl; try done; case_bool_decide; try done; unfold post_path in *; discriminate.
Qed.

Lemma reachable_queue_ok (w : world) : reachable w -> queue_ok w.
Proof. induction 1; auto using step_ok with blog. Qed.

(** ** The measure of the queue *)

(** [w'] has the queue of [w] with requests of total weight at most [k]
    appended. *)
Definition grows (w w' : world) (k : nat) : Prop :=
  exists q', queue w' = queue w ++ q' /\ (load q' <= k)%nat.

Lemma load_app (a b : list pending) : load (a ++ b) = (load a + load b)%nat.
Proof. apply sum_list_with_app. Qed.

Lemma load_remove (q : list pending) (n : nat) (pd : pending) :
  q !! n = Some pd -> load q = (load (remove_nth n q) + weight (pd_cont pd))%nat.
Proof.
  intros Hn. rewrite <- (take_drop_middle q n pd Hn) at 1. unfold remove_nth.
  rewrite !load_app. simpl. lia.
Qed.

Lemma grows_refl (w w' : world) (k : nat) : queue w' = queue w -> grows w w' k.
Proof. intros H. exists []. rewrite H, app_nil_r. simpl. split; [done | lia]. Qed.

Lemma grows_trans (w1 w2 w3 : world) (k1 k2 k : nat) :
  grows w1 w2 k1 -> grows w2 w3 k2 -> (k1 + k2 <= k)%nat -> grows w1 w3 k.
Proof.
  intros (q1 & H1 & L1) (q2 & H2 & L2) Hk. exists (q1 ++ q2).
  rewrite H2, H1, app_assoc, load_app. split; [done | lia].
Qed.

Lemma grows_same (w w0 w' : world) (k : nat) : queue w0 = queue w -> grows w0 w' k -> grows w w' k.
Proof. unfold grows. by intros <-. Qed.

(** Emitting effects from a world with the same queue appends their
    requests. *)
Lemma grows_emit {K} (g : nat) (wrap : K -> acont) (fx : list (effect K)) (w w1 : world) (k : nat) :
  queue w1 = queue w ->
  (sum_list_with (fun kr => weight (wrap kr.1)) (requests_of fx) <= k)%nat ->
  grows w (emit g wrap fx w1) k.
Proof.
  intros Hq Hk. eexists. split; [simpl; rewrite Hq; reflexivity|].
  enough (E : forall l : list (K * request), load (map (fun '(k, rq) => mkPending g (wrap k) rq) l) =
                sum_list_with (fun kr => weight (wrap kr.1)) l) by (rewrite E; exact Hk).
  unfold load. induction l as [|[k' rq] l IH]; simpl; [done|]. lia.
Qed.

Lemma load_effect_weight (id : option jstr) :
  (sum_list_with (fun kr => weight (A_editor kr.1)) (requests_of (AddPost.load_effect id)) <= 1)%nat.
Proof. unfold AddPost.load_effect. destruct (truthy id); simpl; lia. Qed.

Lemma fetch_effect_weight (id : jstr) :
  (sum_list_with (fun kr => weight (A_view kr.1)) (requests_of (FullPost.fetch_effect id)) <= 1)%nat.
Proof. simpl. lia. Qed.

Lemma no_requests_weight {K} (wrap : K -> acont) (fx : list (effect K)) (k : nat) :
  requests_of fx = [] -> (sum_list_with (fun kr => weight (wrap kr.1)) (requests_of fx) <= k)%nat.
Proof. intros ->. simpl. lia. Qed.

#[export] Hint Resolve load_effect_weight fetch_effect_weight no_requests_weight : blog.

Lemma mount_page_grows (p : page) (w : world) : grows w (mount_page p w) 1.
Proof. unfold mount_page. destruct p; simpl; auto using grows_refl; apply grows_emit; auto with blog. Qed.

Lemma goto_grows (path : jstr) (w : world) : grows w (goto path w) 1.
Proof.
  unfold goto. destruct (route path), (inst w);
    try (eapply grows_same; [|apply mount_page_grows]; reflexivity).
  - unfold FullPost.params_change. apply grows_emit; [done|]. case_bool_decide; auto with blog.
  - unfold AddPost.params_change. apply grows_emit; [done|]. case_bool_decide; auto with blog.
Qed.

(** The editor's redirect to [/] mounts the home page, which requests
    nothing. *)
Lemma check_gate_grows (w : world) : grows w (check_gate w) 0.
Proof.
  unfold check_gate. destruct (inst w) as [id d| |]; try (by apply grows_refl).
  destruct (AddPost.render (session w) id d) eqn:R; [|by apply grows_refl].
  unfold AddPost.render in R. destruct (Auth.gate_redirects (session w)); [|done].
  injection R as <-. apply grows_refl. unfold goto. rewrite route_root. by destruct (inst w).
Qed.

Lemma navigate_grows (path : jstr) (w : world) : grows w (navigate path w) 1.
Proof. eapply grows_trans; [apply goto_grows | apply check_gate_grows | lia]. Qed.

Lemma follow_grows (tos : list jstr) (w : world) : grows w (follow tos w) (length tos).
Proof.
  revert w. induction tos as [|to tos IH]; intros w; simpl; [by apply grows_refl|].
  eapply grows_trans; [apply navigate_grows | apply IH | lia].
Qed.

Lemma emit_follow_grows {K} (g : nat) (wrap : K -> acont) (fx : list (effect K)) (w w1 : world) :
  queue w1 = queue w -> requests_of fx = [] ->
  grows w (follow (navigations_of fx) (emit g wrap fx w1)) (length (navigations_of fx)).
Proof.
  intros Hq Hr. eapply grows_trans; [apply (grows_emit g wrap fx w w1 0); auto with blog | apply follow_grows | lia].
Qed.

(** A continuation of the editor navigates less often than its weight. *)
Lemma resume_navigations (k : AddPost.cont) (c : completion) (d : AddPost.draft) :
  (length (navigations_of (snd (AddPost.resume k c d))) < weight (A_editor k))%nat.
Proof. destruct k, c; simpl; lia. Qed.

(** The termination measure: every accepted completion lowers the load of
    the queue. *)
Lemma complete_decreases (n : nat) (c : completion) (w : world) (pd : pending) :
  queue w !! n = Some pd -> fits (pd_req pd) c = true ->
  (load (queue (complete n c w)) < load (queue w))%nat.
Proof.
  intros Hn Hf. rewrite (load_remove _ _ _ Hn).
  assert (Hw : forall w' k, grows (mkWorld (session w) (location w) (inst w) (gen w) (remove_nth n (queue w)) (alerts w)) w' k ->
            (k < weight (pd_cont pd))%nat -> (load (queue w') < load (remove_nth n (queue w)) + weight (pd_cont pd))%nat).
  { intros w' k (q' & -> & L) Hk. rewrite load_app. simpl in *. lia. }
  unfold complete. rewrite Hn, Hf. cbn [negb].
  destruct (pd_cont pd) as [k|k|] eqn:Ek; cbn [weight] in Hw |- *.
  - destruct (inst w) as [id d| |].
    + pose proof (resume_navigations k c d) as Hnav. pose proof (resume_no_requests k c d) as Hr.
      destruct (AddPost.resume k c d) as [d' fx]. simpl in Hnav, Hr.
      eapply Hw; [apply emit_follow_grows; [by case_bool_decide | exact Hr] | exact Hnav].
    + eapply Hw; [apply emit_follow_grows; [done | apply resume_no_requests] | apply resume_navigations].
    + eapply Hw; [apply emit_follow_grows; [done | apply resume_no_requests] | apply resume_navigations].
  - destruct (inst w) as [| id v |].
    + apply (Hw _ 0); [apply grows_emit; [done | auto with blog] | lia].
    + pose proof (fetch_done_no_requests c v) as Hr.
      destruct (FullPost.fetch_done c v) as [v' fx]. simpl in Hr.
      apply (Hw _ 0); [apply grows_emit; [by case_bool_decide | auto with blog] | lia].
    + apply (Hw _ 0); [apply grows_emit; [done | auto with blog] | lia].
  - apply (Hw _ 0); [|lia]. eapply grows_same; [|apply check_gate_grows]. reflexivity.
Qed.

Lemma load_nil (q : list pending) : load q = 0%nat -> q = [].
Proof. destruct q as [|pd q]; [done|]. unfold load. simpl. destruct (pd_cont pd) as [[]|[]|]; simpl; lia. Qed.

Lemma drain_fuel {St} (srv : request -> St -> St * completion) (sched : world -> nat) :
  (forall rq st, fits rq (snd (srv rq st)) = true) ->
  (forall w, queue w <> [] -> (sched w < length (queue w))%nat) ->
  forall fuel w st, (load (queue w) <= fuel)%nat -> queue (fst (drain srv sched fuel w st)) = [].
Proof.
  intros Hsrv Hsched. induction fuel as [|fuel IH]; intros w st Hl; simpl.
  - apply load_nil. lia.
  - destruct (queue w !! sched w) as [pd|] eqn:Hn.
    + pose proof (complete_decreases (sched w) (snd (srv (pd_req pd) st)) w pd Hn (Hsrv _ _)).
      destruct (srv (pd_req pd) st) as [st' c]. apply IH. simpl in *. lia.
    + destruct (decide (queue w = [])) as [He|He]; [done|].
      apply lookup_ge_None in Hn. specialize (Hsched w He). lia.
Qed.

Lemma replies_fit (p : Post.t) (rq : request) : fits rq (replies p rq) = true.
Proof.
  destruct rq as [[] path []]; unfold replies; simpl; try done;
    case_bool_decide; simpl; by rewrite ?bool_decide_true, ?bool_decide_false.
Qed.

(** ** Properties *)

(** C31. The pending requests are well typed in every reachable world:
    each waits with the continuation created for its request (fetch and
    load on [GET /posts/<id>], upload on [POST /upload] with the field
    [image], update on [PATCH /posts/<id>] of the editor's [id], create on
    [POST /posts], "who am I" on [GET /auth/me]) and comes from an
    instance no younger than the mounted one; so under the transport
    contract each continuation receives only the replies it is written
    for (a create is always answered with a Post carrying [_id]). *)
Theorem queue_well_typed (w : world) :
  reachable w ->
  queue_ok w /\
  Forall (fun pd => forall c, fits (pd_req pd) c = true -> expects (pd_cont pd) c = true) (queue w).
Proof.
  intros Hr. pose proof (reachable_queue_ok w Hr) as Hq. split; [done|].
  eapply Forall_impl; [exact Hq|]. intros pd [Ht _] c. by apply typed_fits_expects.
Qed.

Lemma queue_well_typed_witness :
  let w := run [EditorInput (AddPost.ChangeFile [⟪"a.png"⟫]); EditorInput AddPost.Submit]
               (boot (Some ⟪"tok"⟫) ⟪"/posts/a/edit"⟫) in
  reachable w /\ length (queue w) = 4%nat /\
  queue_ok w /\
  Forall (fun pd => forall c, fits (pd_req pd) c = true -> expects (pd_cont pd) c = true) (queue w).
Proof.
  assert (H : reachable (run [EditorInput (AddPost.ChangeFile [⟪"a.png"⟫]); EditorInput AddPost.Submit]
                           (boot (Some ⟪"tok"⟫) ⟪"/posts/a/edit"⟫))) by (apply run_reachable; constructor).
  split; [exact H|]. split; [reflexivity|]. exact (queue_well_typed _ H).
Defined.

(** C32. Liveness of the network: whatever order the requests complete
    in and whatever a server that keeps the transport contract replies,
    the pending requests, including those the completions issue in
    cascade (a successful submit navigates, the article it lands on
    fetches), are all completed after at most [load] deliveries: the
    queue ends empty. *)
Theorem drain_empties {St} (srv : request -> St -> St * completion) (sched : world -> nat)
    (w : world) (st : St) :
  (forall rq st', fits rq (snd (srv rq st')) = true) ->
  (forall w', queue w' <> [] -> (sched w' < length (queue w'))%nat) ->
  queue (fst (drain srv sched (load (queue w)) w st)) = [].
Proof. intros Hsrv Hsched. by apply drain_fuel. Qed.

Lemma drain_empties_witness :
  let w := run [EditorInput AddPost.Submit] (boot (Some ⟪"tok"⟫) ⟪"/add-post"⟫) in
  let srv := fun rq (st : unit) => (st, replies post_a rq) in
  (forall rq st', fits rq (snd (srv rq st')) = true) /\
  (forall w', queue w' <> [] -> (0 < length (queue w'))%nat) /\
  queue (fst (drain srv (fun _ => 0%nat) (load (queue w)) w tt)) = [].
Proof.
  assert (Hs : forall rq (st' : unit), fits rq (snd (st', replies post_a rq)) = true)
    by (intros; apply replies_fit).
  assert (Hq : forall w', queue w' <> [] -> (0 < length (queue w'))%nat)
    by (intros w' H; destruct (queue w'); [done | simpl; lia]).
  split; [exact Hs|]. split; [exact Hq|].
  apply (drain_empties (fun rq (st : unit) => (st, replies post_a rq)) (fun _ => 0%nat) _ tt Hs Hq).
Defined.

End Network.
