(* ===== verification/Server.v ===== *)
(** The server the pages talk to, as an interface, and the end-to-end
    behaviour of the editor and the article view composed through it.

    The server is not among the sources; the spec's section 6 gives its
    contract.  [Backend] is what the client relies on: a [serve] function
    from a request and the server's state to the new state and the
    completion, and [stored], the abstract content of the state (the post
    stored under an identifier).  [BackendLaws] are the contract: every
    reply is of the shape [fits] allows; a fetch returns the stored post
    (a 404 otherwise) and changes nothing; a create stores a post with the
    submitted fields under a fresh identifier (non-empty, without [/]) and
    returns it; an update of a stored post stores the submitted fields
    under the same identifier.

    [Ref] is a reference server that keeps the contract: a [gmap] of posts
    and a counter for identifiers.  The theorem of this file is proved
    against the interface, for every server that keeps the laws: a submit
    in the editor followed by the server's replies to the submit and to
    the article view's fetch shows the article with exactly the fields
    submitted. *)

From stdpp Require Import gmap.
From S2P Require Import Prelude JsString Tags Transport Auth Editor View App Network.

Module Server.
Import Transport App.

(** The fields of a post that the editor writes. *)
Definition post_fields (p : Post.t) : fields :=
  mkFields (Post.title p) (Post.imageUrl p) (Post.tags p) (Post.text p).

(** An identifier the routes can carry: non-empty and without [/]. *)
Definition valid_id (id : jstr) : Prop := id <> [] /\ ~ In slash id.

Class Backend (S : Type) := {
  serve : request -> S -> S * completion;
  stored : S -> jstr -> option Post.t
}.

Class BackendLaws (S : Type) `{!Backend S} := {
  serve_fits (rq : request) (s : S) : fits rq (snd (serve rq s)) = true;
  serve_fetch (id : jstr) (s : S) :
    serve (mkRequest GET (post_path id) NoBody) s =
      (s, match stored s id with Some p => Done_post p | None => Failed end);
  serve_create (f : fields) (s : S) :
    exists s' p, serve (mkRequest POST ⟪"/posts"⟫ (JsonBody f)) s = (s', Done_post p) /\
      post_fields p = f /\ valid_id (Post._id p) /\ stored s' (Post._id p) = Some p;
  serve_update (id : jstr) (f : fields) (s : S) (p0 : Post.t) :
    stored s id = Some p0 ->
    exists s' p, serve (mkRequest PATCH (post_path id) (JsonBody f)) s = (s', Done_ok) /\
      stored s' id = Some p /\ post_fields p = f
}.

(** The network with a server: the request at position [n] of the queue
    is served and its completion delivered. *)
Definition deliver {S} `{!Backend S} (n : nat) (ws : world * S) : world * S :=
  let '(w, s) := ws in
  match queue w !! n with
  | Some pd => let '(s', c) := serve (pd_req pd) s in (step (Complete n c) w, s')
  | None => (w, s)
  end.

(** ** A reference server *)

Module Ref.

Record store := mkStore { posts : gmap jstr Post.t; next : nat }.

(** The decimal digits of [n]. *)
Fixpoint decimal (fuel n : nat) : jstr :=
  match fuel with
  | O => []
  | S fuel' =>
      (if (n <? 10)%nat then [] else decimal fuel' (n / 10)) ++ [(48 + Z.of_nat (n mod 10))%Z]
  end.

Definition new_id (n : nat) : jstr := decimal (S n) n.

(** [s] without the prefix [pre], if it starts with it. *)
Fixpoint strip_prefix (pre s : jstr) : option jstr :=
  match pre, s with
  | [], _ => Some s
  | a :: pre', b :: s' => if bool_decide (a = b) then strip_prefix pre' s' else None
  | _ :: _, [] => None
  end.

Definition me : Post.author := Post.mkAuthor ⟪"me"⟫ None.

Definition with_fields (p : Post.t) (f : fields) : Post.t :=
  Post.mkPost (Post._id p) (f_title f) (f_text f) (f_tags f) (f_imageUrl f)
    (Post.user p) (Post.createdAt p) (Post.viewsCount p).

Definition serve_ref (rq : request) (st : store) : store * completion :=
  match rq_method rq, rq_body rq with
  | GET, NoBody =>
      if bool_decide (rq_path rq = ⟪"/auth/me"⟫) then (st, Done_auth ⟪"me"⟫)
      else match strip_prefix ⟪"/posts/"⟫ (rq_path rq) with
           | Some id => (st, match posts st !! id with Some p => Done_post p | None => Failed end)
           | None => (st, Failed)
           end
  | POST, JsonBody f =>
      if bool_decide (rq_path rq = ⟪"/posts"⟫) then
        let id := new_id (next st) in
        let p := Post.mkPost id (f_title f) (f_text f) (f_tags f) (f_imageUrl f) me ⟪"now"⟫ 0%Z in
        (mkStore (<[id := p]> (posts st)) (S (next st)), Done_post p)
      else (st, Failed)
  | POST, FormBody name (Some file) =>
      if bool_decide (rq_path rq = ⟪"/upload"⟫ /\ name = ⟪"image"⟫)
      then (st, Done_upload (Some (⟪"/uploads/"⟫ ++ file))) else (st, Failed)
  | PATCH, JsonBody f =>
      match strip_prefix ⟪"/posts/"⟫ (rq_path rq) with
      | Some id =>
          match posts st !! id with
          | Some p => (mkStore (<[id := with_fields p f]> (posts st)) (next st), Done_ok)
          | None => (st, Failed)
          end
      | None => (st, Failed)
      end
  | _, _ => (st, Failed)
  end.

#[global] Instance backend : Backend store := {
  serve := serve_ref;
  stored st id := posts st !! id
}.

Definition empty : store := mkStore ∅ 0.

(** ** The reference server keeps the contract *)

Lemma strip_prefix_app (pre s : jstr) : strip_prefix pre (pre ++ s) = Some s.
Proof. induction pre as [|a pre IH]; simpl; [done|]. by rewrite bool_decide_true. Qed.

Lemma post_path_not_auth (id : jstr) : post_path id <> ⟪"/auth/me"⟫.
Proof. discriminate. Qed.

Lemma decimal_digits (fuel n : nat) : Forall (fun c => (48 <= c <= 57)%Z) (decimal fuel n).
Proof.
  revert n. induction fuel as [|fuel IH]; intros n; simpl; [constructor|].
  apply Forall_app; split; [destruct (n <? 10)%nat; [constructor | apply IH]|].
  constructor; [|constructor]. pose proof (Nat.mod_upper_bound n 10). lia.
Qed.

Lemma new_id_valid (n : nat) : valid_id (new_id n).
Proof.
  unfold new_id. split.
  - simpl. intros H. by apply app_eq_nil in H as [_ ?].
  - intros Hin. pose proof (decimal_digits (S n) n) as H. rewrite Forall_forall in H.
    specialize (H slash (proj2 (list_elem_of_In _ _) Hin)). unfold slash in H. lia.
Qed.

#[global] Instance backend_laws : BackendLaws store.
Proof.
  split.
  - intros [[] path []] st; unfold serve; simpl; unfold serve_ref; simpl;
      repeat (case_bool_decide || case_match); simpl; try done;
      rewrite ?bool_decide_true, ?bool_decide_false by done; done.
  - intros id st. unfold serve; simpl; unfold serve_ref; cbn [rq_method rq_body rq_path].
    rewrite bool_decide_false by apply post_path_not_auth. unfold post_path. by rewrite strip_prefix_app.
  - intros f st. do 2 eexists. split; [unfold serve; simpl; unfold serve_ref; cbn [rq_method rq_body rq_path];
      reflexivity|].
    split; [by destruct f|]. split; [apply new_id_valid|]. simpl. by rewrite lookup_insert_eq.
  - intros id f st p0 H0. do 2 eexists. split.
    + unfold serve; simpl; unfold serve_ref; cbn [rq_method rq_body rq_path]. unfold post_path.
      rewrite strip_prefix_app.
      simpl in H0. by rewrite H0.
    + simpl. rewrite lookup_insert_eq. split; [done|]. by destruct f.
Qed.

End Ref.

(** ** Submit, then view, through any server that keeps the contract *)

Section EndToEnd.
Context {S : Type} `{!Backend S} `{!BackendLaws S}.

Lemma deliver_at (n : nat) (w : world) (s : S) (pd : pending) :
  queue w !! n = Some pd ->
  deliver n (w, s) = (step (Complete n (snd (serve (pd_req pd) s))) w, fst (serve (pd_req pd) s)).
Proof. intros H. unfold deliver. rewrite H. by destruct (serve (pd_req pd) s). Qed.

Lemma deliver_last (w : world) (q : list pending) (pd : pending) (s : S) :
  queue w = q ++ [pd] ->
  deliver (length q) (w, s) = (step (Complete (length q) (snd (serve (pd_req pd) s))) w, fst (serve (pd_req pd) s)).
Proof. intros Hq. apply deliver_at. rewrite Hq. apply lookup_last_pending. Qed.

(** The request of the editor's submit, as [onSubmit] builds it. *)
Lemma submit_pending (w : world) (mid : option jstr) (d : AddPost.draft) :
  inst w = I_editor mid d ->
  queue (step (EditorInput AddPost.Submit) w) =
    queue w ++ [mkPending (gen w) (A_editor (AddPost.K_submit (AddPost.isEditing mid) mid))
                  (if AddPost.isEditing mid
                   then mkRequest PATCH (post_path (to_str mid)) (JsonBody (AddPost.submit_fields d))
                   else mkRequest POST ⟪"/posts"⟫ (JsonBody (AddPost.submit_fields d)))].
Proof. intros Hi. simpl. rewrite Hi. simpl. by destruct (AddPost.isEditing mid). Qed.

(** The fetch of a freshly mounted view, delivered with a Post. *)
Lemma fetch_completes (w : world) (q : list pending) (tgt : jstr) (p : Post.t) :
  inst w = I_view tgt FullPost.view_init ->
  queue w = q ++ [mkPending (gen w) (A_view FullPost.K_fetch) (mkRequest GET (post_path tgt) NoBody)] ->
  location (step (Complete (length q) (Done_post p)) w) = location w /\
  inst (step (Complete (length q) (Done_post p)) w) = I_view tgt (FullPost.mkView (Some p) false) /\
  queue (step (Complete (length q) (Done_post p)) w) = q.
Proof.
  intros Hi Hq. unfold step, complete. rewrite Hq, (proj1 (lookup_last_pending _ _)).
  cbn [pd_req pd_gen pd_cont fits rq_method rq_body rq_path].
  rewrite (bool_decide_true (post_path tgt <> _)) by apply Ref.post_path_not_auth.
  cbn [negb]. rewrite bool_decide_true by done. rewrite Hi. simpl.
  by rewrite (proj2 (lookup_last_pending _ _)), app_nil_r.
Qed.

(** C33. The editor and the article view refine the spec's submit
    workflow through any server that keeps the contract: from a mounted
    editor (create mode, or edit mode for a stored post), a submit, the
    server's reply to it and the server's reply to the fetch that
    follows leave the application at [/posts/<id>] (the server-assigned
    identifier when creating, the edited one when editing), with the view
    showing the post the server stores under [id], whose title, image,
    tags and text are exactly those the editor submitted, and nothing
    left pending. *)
Theorem submit_then_view (w : world) (s : S) (mid : option jstr) (d : AddPost.draft) :
  inst w = I_editor mid d ->
  (mid = None \/ exists id p0, mid = Some id /\ valid_id id /\ stored s id = Some p0) ->
  let ws := deliver (length (queue w)) (deliver (length (queue w)) (step (EditorInput AddPost.Submit) w, s)) in
  exists id p, location (fst ws) = post_path id /\
    inst (fst ws) = I_view id (FullPost.mkView (Some p) false) /\
    stored (snd ws) id = Some p /\ post_fields p = AddPost.submit_fields d /\
    queue (fst ws) = queue w /\ (forall x, mid = Some x -> id = x).
Proof.
  intros Hi Hmid. cbv zeta.
  rewrite (deliver_last _ _ _ s (submit_pending w mid d Hi)).
  assert (Hsub : forall tgt c s' p, AddPost.isEditing mid = true /\ (c = Done_ok \/ exists p, c = Done_post p) /\ tgt = to_str mid \/
            AddPost.isEditing mid = false /\ (exists p, c = Done_post p /\ tgt = Post._id p) ->
            valid_id tgt -> stored s' tgt = Some p ->
            deliver (length (queue w)) (step (Complete (length (queue w)) c) (step (EditorInput AddPost.Submit) w), s') =
            (step (Complete (length (queue w)) (Done_post p)) (step (Complete (length (queue w)) c) (step (EditorInput AddPost.Submit) w)), s')).
  { intros tgt c s' p Hc [Ht Hs] Hst.
    destruct (submit_complete w mid d c tgt Hi Ht Hs Hc) as (_ & _ & Hq).
    rewrite (deliver_last _ _ _ s' Hq). cbn [pd_req]. by rewrite serve_fetch, Hst. }
  destruct Hmid as [-> | (id & p0 & -> & Hv & Hp0)].
  - destruct (serve_create (AddPost.submit_fields d) s) as (s' & p & Hs & Hf & Hv & Hst).
    cbn [pd_req AddPost.isEditing truthy]. rewrite Hs. cbn [fst snd].
    rewrite (Hsub (Post._id p) (Done_post p) s' p) by eauto.
    destruct Hv as [Ht Hsl].
    destruct (submit_complete w None d (Done_post p) (Post._id p) Hi Ht Hsl ltac:(right; eauto)) as (Hl & Hin & Hq).
    destruct (fetch_completes _ _ _ p Hin Hq) as (Hl' & Hin' & Hq').
    exists (Post._id p), p. cbn [fst snd]. rewrite Hl', Hl. repeat split; try done; intros ? ?; discriminate.
  - assert (He : AddPost.isEditing (Some id) = true) by (destruct Hv as [Hv _]; by destruct id).
    destruct (serve_update id (AddPost.submit_fields d) s p0 Hp0) as (s' & p & Hs & Hst & Hf).
    cbn [pd_req]. rewrite He. cbn [to_str]. rewrite Hs. cbn [fst snd].
    rewrite (Hsub id Done_ok s' p) by (try left; eauto).
    destruct Hv as [Ht Hsl].
    destruct (submit_complete w (Some id) d Done_ok id Hi Ht Hsl ltac:(left; eauto)) as (Hl & Hin & Hq).
    destruct (fetch_completes _ _ _ p Hin Hq) as (Hl' & Hin' & Hq').
    exists id, p. cbn [fst snd]. rewrite Hl', Hl. repeat split; try done; intros x Hx; by injection Hx.
Qed.

End EndToEnd.

Lemma submit_then_view_witness :
  let w := run [EditorInput (AddPost.ChangeTitle ⟪"Hello"⟫); EditorInput (AddPost.ChangeTags ⟪"a, b ,c"⟫)]
               (boot (Some ⟪"tok"⟫) ⟪"/add-post"⟫) in
  let d := AddPost.setTags ⟪"a, b ,c"⟫ (AddPost.setTitle ⟪"Hello"⟫ AddPost.draft_init) in
  inst w = I_editor None d /\
  let ws := deliver (length (queue w)) (deliver (length (queue w)) (step (EditorInput AddPost.Submit) w, Ref.empty)) in
  exists id p, location (fst ws) = post_path id /\
    inst (fst ws) = I_view id (FullPost.mkView (Some p) false) /\
    stored (snd ws) id = Some p /\ post_fields p = AddPost.submit_fields d /\
    queue (fst ws) = queue w /\ (forall x, None = Some x -> id = x).
Proof.
  split; [reflexivity|].
  apply (submit_then_view _ Ref.empty None); [reflexivity | left; reflexivity].
Defined.

(** Scenario A end to end with the reference server: the post is created
    as [0], the application lands on [/posts/0] and shows it, with the
    tags [["a","b","c"]]. *)
Example scenario_A_end_to_end :
  let w := run [EditorInput (AddPost.ChangeTitle ⟪"Hello"⟫); EditorInput (AddPost.ChangeText ⟪"World"⟫);
                EditorInput (AddPost.ChangeTags ⟪"a, b ,c"⟫)] (boot (Some ⟪"tok"⟫) ⟪"/add-post"⟫) in
  let ws := deliver 1 (deliver 1 (step (EditorInput AddPost.Submit) w, Ref.empty)) in
  location (fst ws) = ⟪"/posts/0"⟫ /\ shown (fst ws) = Some ⟪"0"⟫ /\
  option_map Post.tags (stored (snd ws) ⟪"0"⟫) = Some [⟪"a"⟫; ⟪"b"⟫; ⟪"c"⟫].
Proof. vm_compute. auto. Qed.

(** The network drained against the reference server from a create: "who
    am I", the create and the article's fetch complete in turn, and the
    application rests on the new article with nothing pending. *)
Example reference_server_drains :
  let w := run [EditorInput (AddPost.ChangeTitle ⟪"Hello"⟫); EditorInput AddPost.Submit]
               (boot (Some ⟪"tok"⟫) ⟪"/add-post"⟫) in
  let ws := Network.drain serve (fun _ => 0%nat) (Network.load (queue w)) w Ref.empty in
  queue (fst ws) = [] /\ location (fst ws) = ⟪"/posts/0"⟫ /\ shown (fst ws) = Some ⟪"0"⟫ /\
  Auth.selectIsAuth (session (fst ws)) = true.
Proof. vm_compute. auto. Qed.

End Server.
