(* ===== verification/Session.v ===== *)
(** The header that
    [App] renders above every page ([<Header />], [src/src/App.js] line
    20).

    The header is a function of the session ([header]); clicking one of
    its items is an application event ([click]: a [<Link>] navigates, the
    logout button runs [onClickLogout] with the answer of
    [window.confirm]).  [write_link_opens_editor] shows the header offers
    the write link exactly to an authenticated session, and that the link
    always reaches the editor's form (never the gate's redirect). *)

From S2P Require Import Prelude Transport Auth Editor View App.

Module Session.
Import Transport App.

(** The header above every page: [Header] reads [selectIsAuth]. *)
Definition header (w : world) : list Auth.item := Auth.Header (Auth.selectIsAuth (session w)).

(** A click on an item of the header: a [<Link to>] is a client-side
    navigation; the logout button calls [onClickLogout], whose
    [window.confirm] answers [confirmed]. *)
Definition click (it : Auth.item) (confirmed : bool) : event :=
  match it with
  | Auth.Link to _ => Navigate to
  | Auth.LogoutButton _ => Logout confirmed
  end.

(** ** Lemmas *)

Lemma route_add_post : route ⟪"/add-post"⟫ = AddPostPage None.
Proof. reflexivity. Qed.

(** An authenticated session passes the editor's gate. *)
Lemma isAuth_gate_open (s : Auth.session) :
  Auth.selectIsAuth s = true -> Auth.gate_redirects s = false.
Proof. intros H. unfold Auth.gate_redirects. rewrite H. apply andb_false_r. Qed.

(** ** Properties *)

(** C34. The header's write link opens the editor: the header shows a
    link labelled "Write an article" exactly when the session is
    authenticated, and a click on it moves the application to its
    location, which routes to the create form ([/add-post]); the editor is
    mounted in create mode and, its gate being open for that session,
    renders the form rather than the redirect. *)
Theorem write_link_opens_editor (w : world) :
  ((exists to, In (Auth.Link to ⟪"Write an article"⟫) (header w)) <->
     Auth.selectIsAuth (session w) = true) /\
  (forall to, In (Auth.Link to ⟪"Write an article"⟫) (header w) ->
   let w' := step (click (Auth.Link to ⟪"Write an article"⟫) false) w in
   location w' = to /\ route to = AddPostPage None /\
   exists d, inst w' = I_editor None d /\ AddPost.render (session w') None d <> AddPost.Redirect ⟪"/"⟫).
Proof.
  unfold header, Auth.Header. split.
  - destruct (Auth.selectIsAuth (session w)); split; intros H; try done.
    + exists ⟪"/add-post"⟫. cbn [In]. auto.
    + destruct H as (to & H). cbn [In] in H.
      destruct H as [H | [H | [H | []]]]; discriminate H.
  - intros to Hin. destruct (Auth.selectIsAuth (session w)) eqn:Ha0;
      cbn [In] in Hin; destruct Hin as [H | [H | [H | []]]]; try discriminate H.
    assert (Hto : to = ⟪"/add-post"⟫) by congruence. subst to.
    cbv zeta. simpl. unfold navigate, goto. rewrite route_add_post.
    pose proof (isAuth_gate_open _ Ha0) as Hg.
    destruct (inst w) as [id d| |]; simpl; [case_bool_decide; simpl | |].
    all: unfold check_gate; simpl; unfold AddPost.render; rewrite Hg.
    all: split; [done | split; [done | eexists; split; [reflexivity | simpl; rewrite Hg; discriminate]]].
Qed.

End Session.
